(** * schema-diff: the schema parsers and the diff engine of [src/index.ts]

    A shallow embedding of the TypeScript source.  Strings are Rocq
    [string]s read as ASCII text; a JavaScript [Map] is an association list
    kept in insertion order; arrays are lists; loops are folds over the
    sequence the loop visits, with [push] as an append at the end. *)

From Stdlib Require Import List String Ascii Bool Arith Lia DecimalString.
Import ListNotations.
Open Scope string_scope.
Open Scope bool_scope.
Open Scope list_scope.

(** ** JavaScript [Map<string, V>]

    The entries are listed in insertion order.  A real [Map] never holds a
    key twice: that is [wf]. *)
Module JsMap.

Definition t (V : Type) : Type := list (string * V).

Definition empty {V : Type} : t V := [].

Definition keys {V : Type} (m : t V) : list string := map fst m.

Fixpoint get {V : Type} (m : t V) (k : string) : option V :=
  match m with
  | [] => None
  | (k', v) :: rest => if String.eqb k' k then Some v else get rest k
  end.

Definition has {V : Type} (m : t V) (k : string) : bool :=
  match get m k with Some _ => true | None => false end.

(** [set] keeps the position of a key that is already present. *)
Fixpoint set {V : Type} (m : t V) (k : string) (v : V) : t V :=
  match m with
  | [] => [(k, v)]
  | (k', v') :: rest =>
      if String.eqb k' k then (k', v) :: rest else (k', v') :: set rest k v
  end.

Definition wf {V : Type} (m : t V) : Prop := NoDup (keys m).

End JsMap.

(** ** The types of the source *)

Module Column.
Record t : Type := mk
  { name : string;
    type : string;
    nullable : bool;
    defaultVal : option string;
    primaryKey : bool;
    unique : bool }.
End Column.

Module Constraint.
Record t : Type := mk
  { name : string;
    type : string;
    columns : list string;
    references : option string }.
End Constraint.

Module Table.
Record t : Type := mk
  { name : string;
    columns : JsMap.t Column.t;
    constraints : list Constraint.t }.
End Table.

Module Schema.
Record t : Type := mk { tables : JsMap.t Table.t }.
End Schema.

Module ColumnChange.
Record t : Type := mk
  { name : string;
    oldType : string;
    newType : string;
    oldNullable : bool;
    newNullable : bool;
    oldDefault : option string;
    newDefault : option string;
    breaking : bool }.
End ColumnChange.

Module TableDiff.
Record t : Type := mk
  { name : string;
    addedColumns : list Column.t;
    removedColumns : list Column.t;
    changedColumns : list ColumnChange.t;
    addedConstraints : list Constraint.t;
    removedConstraints : list Constraint.t }.
End TableDiff.

Module Diff.
Record t : Type := mk
  { addedTables : list string;
    removedTables : list string;
    changedTables : list TableDiff.t }.
End Diff.

(** ** JavaScript operators used by the diff engine *)

(** [a !== b] on [string | null]. *)
Definition optStrictEq (a b : option string) : bool :=
  match a, b with
  | Some x, Some y => String.eqb x y
  | None, None => true
  | _, _ => false
  end.

(** [arr.push(x)] *)
Definition push {A : Type} (arr : list A) (x : A) : list A := arr ++ [x].

(** [a || b] on numbers, and the truthiness of a number. *)
Definition numOr (a b : nat) : nat := if Nat.eqb a 0 then b else a.
Definition truthy (n : nat) : bool := negb (Nat.eqb n 0).

(** [arr.join(",")] *)
Definition join (sep : string) (arr : list string) : string :=
  String.concat sep arr.

(** [new Set(keys)] with [has]. *)
Definition Set_has (s : list string) (k : string) : bool :=
  existsb (String.eqb k) s.

(** ** The diff engine *)

(** The test of line 270. *)
Definition columnDiffers (oldCol newCol : Column.t) : bool :=
  negb (String.eqb (Column.type oldCol) (Column.type newCol))
  || negb (Bool.eqb (Column.nullable oldCol) (Column.nullable newCol))
  || negb (optStrictEq (Column.defaultVal oldCol) (Column.defaultVal newCol)).

(** Lines 271-284: the classification and the record pushed. *)
Definition isBreaking (oldCol newCol : Column.t) : bool :=
  negb (String.eqb (Column.type oldCol) (Column.type newCol))
  || (Column.nullable oldCol && negb (Column.nullable newCol)).

Definition mkColumnChange (colName : string) (oldCol newCol : Column.t)
  : ColumnChange.t :=
  {| ColumnChange.name := colName;
     ColumnChange.oldType := Column.type oldCol;
     ColumnChange.newType := Column.type newCol;
     ColumnChange.oldNullable := Column.nullable oldCol;
     ColumnChange.newNullable := Column.nullable newCol;
     ColumnChange.oldDefault := Column.defaultVal oldCol;
     ColumnChange.newDefault := Column.defaultVal newCol;
     ColumnChange.breaking := isBreaking oldCol newCol |}.

(** One turn of the loop of lines 263-286 over the new table's columns; the
    state is [(addedColumns, changedColumns)]. *)
Definition columnStep (oldTable : Table.t)
  (st : list Column.t * list ColumnChange.t) (entry : string * Column.t)
  : list Column.t * list ColumnChange.t :=
  let '(addedColumns, changedColumns) := st in
  let '(colName, newCol) := entry in
  match JsMap.get (Table.columns oldTable) colName with
  | None => (push addedColumns newCol, changedColumns)
  | Some oldCol =>
      if columnDiffers oldCol newCol
      then (addedColumns, push changedColumns (mkColumnChange colName oldCol newCol))
      else (addedColumns, changedColumns)
  end.

Definition columnLoop (oldTable newTable : Table.t)
  : list Column.t * list ColumnChange.t :=
  fold_left (columnStep oldTable) (Table.columns newTable) ([], []).

(** Lines 288-292.  [get(colName)!] is taken on a key of the same map, so
    the [None] branch is never reached (see [get_of_key]). *)
Definition removedStep (oldTable newTable : Table.t)
  (removedColumns : list Column.t) (colName : string) : list Column.t :=
  if negb (JsMap.has (Table.columns newTable) colName)
  then match JsMap.get (Table.columns oldTable) colName with
       | Some c => push removedColumns c
       | None => removedColumns
       end
  else removedColumns.

Definition removedLoop (oldTable newTable : Table.t) : list Column.t :=
  fold_left (removedStep oldTable newTable)
            (JsMap.keys (Table.columns oldTable)) [].

(** Lines 295-306. *)
Definition constraintKey (c : Constraint.t) : string :=
  (Constraint.type c ++ ":" ++ join "," (Constraint.columns c))%string.

Definition constraintStep (otherKeys : list string)
  (acc : list Constraint.t) (con : Constraint.t) : list Constraint.t :=
  let key := constraintKey con in
  if negb (Set_has otherKeys key) then push acc con else acc.

Definition constraintLoop (these others : list Constraint.t)
  : list Constraint.t :=
  fold_left (constraintStep (map constraintKey others)) these [].

(** The five lists computed for one table present in both schemas. *)
Definition tableDiff (name : string) (oldTable newTable : Table.t)
  : TableDiff.t :=
  let '(addedColumns, changedColumns) := columnLoop oldTable newTable in
  {| TableDiff.name := name;
     TableDiff.addedColumns := addedColumns;
     TableDiff.removedColumns := removedLoop oldTable newTable;
     TableDiff.changedColumns := changedColumns;
     TableDiff.addedConstraints :=
       constraintLoop (Table.constraints newTable) (Table.constraints oldTable);
     TableDiff.removedConstraints :=
       constraintLoop (Table.constraints oldTable) (Table.constraints newTable) |}.

(** The test of line 308. *)
Definition anyChange (td : TableDiff.t) : bool :=
  truthy
    (numOr (numOr (numOr (numOr
       (List.length (TableDiff.addedColumns td))
       (List.length (TableDiff.removedColumns td)))
       (List.length (TableDiff.changedColumns td)))
       (List.length (TableDiff.addedConstraints td)))
       (List.length (TableDiff.removedConstraints td))).

(** One turn of the loop of lines 252-318. *)
Definition tableStep (oldSchema : Schema.t)
  (changedTables : list TableDiff.t) (entry : string * Table.t)
  : list TableDiff.t :=
  let '(name, newTable) := entry in
  match JsMap.get (Schema.tables oldSchema) name with
  | None => changedTables
  | Some oldTable =>
      let td := tableDiff name oldTable newTable in
      if anyChange td then push changedTables td else changedTables
  end.

(** One turn of the loop of lines 238-242, over the old schema's keys. *)
Definition removedTableStep (newSchema : Schema.t)
  (removedTables : list string) (name : string) : list string :=
  if negb (JsMap.has (Schema.tables newSchema) name)
  then push removedTables name else removedTables.

(** One turn of the loop of lines 245-249, over the new schema's keys. *)
Definition addedTableStep (oldSchema : Schema.t)
  (addedTables : list string) (name : string) : list string :=
  if negb (JsMap.has (Schema.tables oldSchema) name)
  then push addedTables name else addedTables.

Definition diffSchemas (oldSchema newSchema : Schema.t) : Diff.t :=
  let removedTables :=
    fold_left (removedTableStep newSchema)
              (JsMap.keys (Schema.tables oldSchema)) [] in
  let addedTables :=
    fold_left (addedTableStep oldSchema)
              (JsMap.keys (Schema.tables newSchema)) [] in
  let changedTables :=
    fold_left (tableStep oldSchema) (Schema.tables newSchema) [] in
  {| Diff.addedTables := addedTables;
     Diff.removedTables := removedTables;
     Diff.changedTables := changedTables |}.

(** ** The aggregate predicate and the filter *)

(** The loop of lines 326-329, with its early returns. *)
Fixpoint anyBreakingTable (ts : list TableDiff.t) : bool :=
  match ts with
  | [] => false
  | t :: rest =>
      if Nat.ltb 0 (List.length (TableDiff.removedColumns t)) then true
      else if existsb ColumnChange.breaking (TableDiff.changedColumns t) then true
      else anyBreakingTable rest
  end.

Definition hasBreakingChanges (diff : Diff.t) : bool :=
  if Nat.ltb 0 (List.length (Diff.removedTables diff)) then true
  else anyBreakingTable (Diff.changedTables diff).

(** The object spread of lines 339-343. *)
Definition breakingPart (t : TableDiff.t) : TableDiff.t :=
  {| TableDiff.name := TableDiff.name t;
     TableDiff.addedColumns := [];
     TableDiff.removedColumns := TableDiff.removedColumns t;
     TableDiff.changedColumns :=
       filter ColumnChange.breaking (TableDiff.changedColumns t);
     TableDiff.addedConstraints := [];
     TableDiff.removedConstraints := TableDiff.removedConstraints t |}.

(** The test of line 344. *)
Definition keepsTable (t : TableDiff.t) : bool :=
  truthy
    (numOr (numOr
       (List.length (TableDiff.removedColumns t))
       (List.length (TableDiff.changedColumns t)))
       (List.length (TableDiff.removedConstraints t))).

Definition filterBreakingOnly (diff : Diff.t) : Diff.t :=
  {| Diff.addedTables := [];
     Diff.removedTables := Diff.removedTables diff;
     Diff.changedTables :=
       filter keepsTable (map breakingPart (Diff.changedTables diff)) |}.

(** ** Loops that push: what they collect *)

(** The elements a pushing loop with test-and-value [f] adds, in order. *)
Fixpoint collect {A B : Type} (f : A -> option B) (l : list A) : list B :=
  match l with
  | [] => []
  | x :: rest =>
      match f x with
      | Some y => y :: collect f rest
      | None => collect f rest
      end
  end.

Definition pushIf {A B : Type} (f : A -> option B) (acc : list B) (x : A)
  : list B :=
  match f x with Some y => push acc y | None => acc end.

(** The test-and-value of each loop of [diffSchemas]. *)
Definition addedOf (oldTable : Table.t) (entry : string * Column.t)
  : option Column.t :=
  match JsMap.get (Table.columns oldTable) (fst entry) with
  | None => Some (snd entry)
  | Some _ => None
  end.

Definition changedOf (oldTable : Table.t) (entry : string * Column.t)
  : option ColumnChange.t :=
  match JsMap.get (Table.columns oldTable) (fst entry) with
  | None => None
  | Some oldCol =>
      if columnDiffers oldCol (snd entry)
      then Some (mkColumnChange (fst entry) oldCol (snd entry))
      else None
  end.

Definition removedOf (oldTable newTable : Table.t) (colName : string)
  : option Column.t :=
  if negb (JsMap.has (Table.columns newTable) colName)
  then JsMap.get (Table.columns oldTable) colName
  else None.

Definition unmatched (others : list Constraint.t) (con : Constraint.t)
  : option Constraint.t :=
  if negb (Set_has (map constraintKey others) (constraintKey con))
  then Some con else None.

Definition changedOfTable (oldSchema : Schema.t) (entry : string * Table.t)
  : option TableDiff.t :=
  match JsMap.get (Schema.tables oldSchema) (fst entry) with
  | None => None
  | Some oldTable =>
      let td := tableDiff (fst entry) oldTable (snd entry) in
      if anyChange td then Some td else None
  end.

Definition lacking (other : JsMap.t Table.t) (name : string) : option string :=
  if negb (JsMap.has other name) then Some name else None.

(** ** Well-formed schemas

    Every [Map] of a schema holds each key once. *)
Definition wfSchema (S : Schema.t) : Prop :=
  JsMap.wf (Schema.tables S) /\
  forall name t, In (name, t) (Schema.tables S) -> JsMap.wf (Table.columns t).

(** A table diff with a difference in one of its five lists. *)
Definition someChange (td : TableDiff.t) : Prop :=
  TableDiff.addedColumns td <> [] \/ TableDiff.removedColumns td <> [] \/
  TableDiff.changedColumns td <> [] \/ TableDiff.addedConstraints td <> [] \/
  TableDiff.removedConstraints td <> [].

(** ** The breaking-only filter as the specification words it

    Each changed table keeps its name, removed columns and removed
    constraints, loses its added columns and added constraints, keeps the
    breaking column changes only, and is dropped when nothing remains. *)
Fixpoint retainedTables (ts : list TableDiff.t) : list TableDiff.t :=
  match ts with
  | [] => []
  | t :: rest =>
      let kept := filter ColumnChange.breaking (TableDiff.changedColumns t) in
      match TableDiff.removedColumns t, kept, TableDiff.removedConstraints t with
      | [], [], [] => retainedTables rest
      | _, _, _ =>
          TableDiff.mk (TableDiff.name t) [] (TableDiff.removedColumns t) kept
                       [] (TableDiff.removedConstraints t)
          :: retainedTables rest
      end
  end.

Definition breakingOnlySpec (diff : Diff.t) : Diff.t :=
  Diff.mk [] (Diff.removedTables diff) (retainedTables (Diff.changedTables diff)).

(** ** Sample schemas *)

Module Sample.

Definition col (n ty : string) (nullable : bool) (d : option string)
  : Column.t := Column.mk n ty nullable d false false.

Definition users_v1 : Table.t :=
  Table.mk "users"
    [("id", Column.mk "id" "INTEGER" false None true false);
     ("email", col "email" "TEXT" true None)]
    [].

Definition users_v2 : Table.t :=
  Table.mk "users"
    [("id", Column.mk "id" "INTEGER" false None true false);
     ("email", col "email" "TEXT" false None);
     ("name", col "name" "TEXT" true None)]
    [].

Definition orders : Table.t :=
  Table.mk "orders" [("id", col "id" "INTEGER" true None)] [].

Definition schema_v1 : Schema.t :=
  Schema.mk [("users", users_v1); ("orders", orders)].

Definition schema_v2 : Schema.t := Schema.mk [("users", users_v2)].

Definition schema_v3 : Schema.t :=
  Schema.mk [("orders", orders); ("users", users_v2)].

End Sample.

(** Two tables that differ in one constraint: its type and its column. *)
Module KeySample.

Definition byColumn : Constraint.t :=
  Constraint.mk "ix_email" "INDEX" ["btree:email"] None.

Definition byType : Constraint.t :=
  Constraint.mk "ix_email" "INDEX:btree" ["email"] None.

Definition accounts (c : Constraint.t) : Schema.t :=
  Schema.mk
    [("accounts",
      Table.mk "accounts" [("email", Sample.col "email" "TEXT" true None)] [c])].

End KeySample.

(** A constraint type without the separator of [constraintKey]; the three
    types the SQL parser emits are such. *)
Fixpoint noColon (s : string) : bool :=
  match s with
  | EmptyString => true
  | String c rest => negb (Ascii.eqb c ":") && noColon rest
  end.

(** What [filterBreakingOnly] leaves out of a diff: the added tables, and in
    each changed table the added columns, the column changes that are not
    breaking, and the constraints. *)
Definition nonBreakingPart (diff : Diff.t) : Diff.t :=
  {| Diff.addedTables := Diff.addedTables diff;
     Diff.removedTables := [];
     Diff.changedTables :=
       map (fun t =>
              {| TableDiff.name := TableDiff.name t;
                 TableDiff.addedColumns := TableDiff.addedColumns t;
                 TableDiff.removedColumns := [];
                 TableDiff.changedColumns :=
                   filter (fun c => negb (ColumnChange.breaking c))
                          (TableDiff.changedColumns t);
                 TableDiff.addedConstraints := TableDiff.addedConstraints t;
                 TableDiff.removedConstraints := TableDiff.removedConstraints t |})
           (Diff.changedTables diff) |}.
(** ** ASCII text: character classes and the string methods the parser uses *)

Definition LF : ascii := "010"%char.
Definition CR : ascii := "013"%char.

Definition inRange (lo hi : nat) (c : ascii) : bool :=
  let n := nat_of_ascii c in Nat.leb lo n && Nat.leb n hi.

Definition isUpper (c : ascii) : bool := inRange 65 90 c.
Definition isLower (c : ascii) : bool := inRange 97 122 c.
Definition isDigit (c : ascii) : bool := inRange 48 57 c.

(** [\w] *)
Definition isWord (c : ascii) : bool :=
  isUpper c || isLower c || isDigit c || Ascii.eqb c "_".

(** [\s]: tab, line feed, vertical tab, form feed, carriage return, space. *)
Definition isSpace (c : ascii) : bool := inRange 9 13 c || Ascii.eqb c " ".

Definition upcase (c : ascii) : ascii :=
  if isLower c then ascii_of_nat (nat_of_ascii c - 32) else c.

Definition downcase (c : ascii) : ascii :=
  if isUpper c then ascii_of_nat (nat_of_ascii c + 32) else c.

Fixpoint mapString (f : ascii -> ascii) (s : string) : string :=
  match s with
  | EmptyString => EmptyString
  | String c rest => String (f c) (mapString f rest)
  end.

Definition toUpperCase : string -> string := mapString upcase.
Definition toLowerCase : string -> string := mapString downcase.

Fixpoint trimStart (s : string) : string :=
  match s with
  | String c rest => if isSpace c then trimStart rest else s
  | EmptyString => EmptyString
  end.

(** [trimEnd]: a character is dropped when it is a space and everything
    after it was dropped. *)
Fixpoint trimEnd (s : string) : string :=
  match s with
  | EmptyString => EmptyString
  | String c rest =>
      match trimEnd rest with
      | EmptyString => if isSpace c then EmptyString else String c EmptyString
      | kept => String c kept
      end
  end.

Definition trim (s : string) : string := trimEnd (trimStart s).

(** [s.startsWith(p)] *)
Definition startsWith (s p : string) : bool := String.prefix p s.

(** [s.includes(sub)] *)
Fixpoint includes (s sub : string) : bool :=
  String.prefix sub s ||
  match s with
  | String _ rest => includes rest sub
  | EmptyString => false
  end.

(** [s.split(sep)] for a one-character separator. *)
Fixpoint split (sep : ascii) (s : string) : list string :=
  match s with
  | EmptyString => [EmptyString]
  | String c rest =>
      if Ascii.eqb c sep then EmptyString :: split sep rest
      else match split sep rest with
           | h :: t => String c h :: t
           | [] => [String c EmptyString]
           end
  end.

(** [Boolean(s)] on a string. *)
Definition nonEmpty (s : string) : bool :=
  match s with EmptyString => false | String _ _ => true end.

(** ** Regular expressions, matched by backtracking as the engine does

    Quantifiers are applied to character classes only, which is all the
    parser's expressions need.  [Maybe] is a greedy optional group, [Cap] a
    numbered capture group, [Bol] the anchor [^]. *)

Inductive quant : Type := One | Optional | Star | Plus | LazyStar.

Inductive regex : Type :=
| Eps
| Cls (p : ascii -> bool) (q : quant)
| Cat (r1 r2 : regex)
| Maybe (r : regex)
| Cap (i : nat) (r : regex)
| Bol.

Declare Scope regex_scope.
Delimit Scope regex_scope with re.
Bind Scope regex_scope with regex.
Infix ";;" := Cat (at level 61, right associativity) : regex_scope.

Module Regex.

Definition captures : Type := list (nat * string).

(** A match: the index after it, the text after it, and the groups. *)
Definition result : Type := (nat * string * captures)%type.

Definition cont : Type := nat -> string -> captures -> option result.

Definition orElse (a : option result) (b : unit -> option result)
  : option result :=
  match a with Some r => Some r | None => b tt end.

Definition one (p : ascii -> bool) (k : cont) : cont :=
  fun pos s caps =>
    match s with
    | String c rest => if p c then k (S pos) rest caps else None
    | EmptyString => None
    end.

(** [p*]: as many as possible first, then fewer. *)
Fixpoint greedy (p : ascii -> bool) (k : cont) (pos : nat) (s : string)
  (caps : captures) {struct s} : option result :=
  match s with
  | String c rest =>
      if p c
      then orElse (greedy p k (S pos) rest caps) (fun _ => k pos s caps)
      else k pos s caps
  | EmptyString => k pos s caps
  end.

(** [p*?]: as few as possible first, then more. *)
Fixpoint reluctant (p : ascii -> bool) (k : cont) (pos : nat) (s : string)
  (caps : captures) {struct s} : option result :=
  orElse (k pos s caps)
    (fun _ =>
       match s with
       | String c rest => if p c then reluctant p k (S pos) rest caps else None
       | EmptyString => None
       end).

Fixpoint run (r : regex) (k : cont) {struct r} : cont :=
  match r with
  | Eps => k
  | Cls p One => one p k
  | Cls p Optional =>
      fun pos s caps => orElse (one p k pos s caps) (fun _ => k pos s caps)
  | Cls p Star => greedy p k
  | Cls p Plus => one p (greedy p k)
  | Cls p LazyStar => reluctant p k
  | Cat r1 r2 => run r1 (run r2 k)
  | Maybe r' =>
      fun pos s caps => orElse (run r' k pos s caps) (fun _ => k pos s caps)
  | Cap i r' =>
      fun pos s caps =>
        run r' (fun pos' s' caps' =>
                  k pos' s' ((i, String.substring 0 (pos' - pos) s) :: caps'))
            pos s caps
  | Bol => fun pos s caps => if Nat.eqb pos 0 then k pos s caps else None
  end.

Definition matchAt (r : regex) (pos : nat) (s : string) : option result :=
  run r (fun pos' s' caps => Some (pos', s', caps)) pos s [].

(** The leftmost match in [s], the text from index [pos] on. *)
Fixpoint search (r : regex) (pos : nat) (s : string) {struct s}
  : option result :=
  match matchAt r pos s with
  | Some m => Some m
  | None =>
      match s with
      | String _ rest => search r (S pos) rest
      | EmptyString => None
      end
  end.

(** [m[i]]; every group of the parser's expressions takes part in every
    match, so the default is never used. *)
Fixpoint group (i : nat) (caps : captures) : string :=
  match caps with
  | [] => EmptyString
  | (j, s) :: rest => if Nat.eqb i j then s else group i rest
  end.

(** [s.match(r)] without the [g] flag: the groups of the leftmost match. *)
Definition match_ (s : string) (r : regex) : option captures :=
  match search r 0 s with
  | Some (_, _, caps) => Some caps
  | None => None
  end.

(** [s.replace(r, by)] with the [g] flag. *)
Fixpoint replaceFrom (fuel : nat) (r : regex) (by_ : string) (pos : nat)
  (s : string) : string :=
  match fuel with
  | O => s
  | S fuel' =>
      match matchAt r pos s with
      | Some (pos', s', _) =>
          if Nat.eqb pos' pos
          then match s with
               | String c rest =>
                   (by_ ++ String c (replaceFrom fuel' r by_ (S pos) rest))%string
               | EmptyString => by_
               end
          else (by_ ++ replaceFrom fuel' r by_ pos' s')%string
      | None =>
          match s with
          | String c rest => String c (replaceFrom fuel' r by_ (S pos) rest)
          | EmptyString => EmptyString
          end
      end
  end.

Definition replaceAll (s : string) (r : regex) (by_ : string) : string :=
  replaceFrom (S (String.length s)) r by_ 0 s.

(** A literal character, and the same under the [i] flag. *)
Definition chr (c : ascii) : regex := Cls (Ascii.eqb c) One.
Definition chri (c : ascii) : regex :=
  Cls (fun x => Ascii.eqb (upcase x) (upcase c)) One.

(** A literal word under the [i] flag. *)
Fixpoint word (w : string) : regex :=
  match w with
  | EmptyString => Eps
  | String c rest => Cat (chri c) (word rest)
  end.

End Regex.

(** ** The SQL parser *)

Module SQL.

Import Regex.

(** The source's expressions are quoted in the comments below with the
    double quote written [\x22]. *)

Definition DQUOTE : ascii := "034"%char.

(** [[\x22`]] *)
Definition isQuote (c : ascii) : bool := Ascii.eqb c DQUOTE || Ascii.eqb c "`".
Definition anyChar (c : ascii) : bool := true.
Definition isNot (x : ascii) (c : ascii) : bool := negb (Ascii.eqb c x).

(** [/--[^\n]*/g] *)
Definition lineComment : regex :=
  (chr "-" ;; chr "-" ;; Cls (isNot LF) Star)%re.

(** [/\/\*[\s\S]*?\*\//g] *)
Definition blockComment : regex :=
  (chr "/" ;; chr "*" ;; Cls anyChar LazyStar ;; chr "*" ;; chr "/")%re.

(** [/\r\n/g] *)
Definition crlf : regex := (chr CR ;; chr LF)%re.

(** [/CREATE\s+TABLE\s+(?:IF\s+NOT\s+EXISTS\s+)?[\x22`]?(\w+)[\x22`]?\s*\(([\s\S]*?)\)\s*;/gi] *)
Definition createRegex : regex :=
  (word "CREATE" ;; Cls isSpace Plus ;; word "TABLE" ;; Cls isSpace Plus ;;
   Maybe (word "IF" ;; Cls isSpace Plus ;; word "NOT" ;; Cls isSpace Plus ;;
          word "EXISTS" ;; Cls isSpace Plus) ;;
   Cls isQuote Optional ;; Cap 1 (Cls isWord Plus) ;; Cls isQuote Optional ;;
   Cls isSpace Star ;; chr "(" ;; Cap 2 (Cls anyChar LazyStar) ;; chr ")" ;;
   Cls isSpace Star ;; chr ";")%re.

(** [/\(([^)]+)\)/] *)
Definition parenthesized : regex :=
  (chr "(" ;; Cap 1 (Cls (isNot ")") Plus) ;; chr ")")%re.

(** [/FOREIGN\s+KEY\s*\(([^)]+)\)\s*REFERENCES\s+[\x22`]?(\w+)[\x22`]?\s*\(([^)]+)\)/i] *)
Definition foreignKey : regex :=
  (word "FOREIGN" ;; Cls isSpace Plus ;; word "KEY" ;; Cls isSpace Star ;;
   chr "(" ;; Cap 1 (Cls (isNot ")") Plus) ;; chr ")" ;; Cls isSpace Star ;;
   word "REFERENCES" ;; Cls isSpace Plus ;;
   Cls isQuote Optional ;; Cap 2 (Cls isWord Plus) ;; Cls isQuote Optional ;;
   Cls isSpace Star ;; chr "(" ;; Cap 3 (Cls (isNot ")") Plus) ;; chr ")")%re.

(** [/^[\x22`]?(\w+)[\x22`]?\s+(\w[\w() ,]{0,})/i], the final star
    written [{0,}] *)
Definition isTypeChar (c : ascii) : bool :=
  isWord c || Ascii.eqb c "(" || Ascii.eqb c ")" || Ascii.eqb c " "
  || Ascii.eqb c ",".

Definition columnDef : regex :=
  (Bol ;; Cls isQuote Optional ;; Cap 1 (Cls isWord Plus) ;;
   Cls isQuote Optional ;; Cls isSpace Plus ;;
   Cap 2 (Cls isWord One ;; Cls isTypeChar Star))%re.

(** [/DEFAULT\s+([^ ,]+)/i] *)
Definition isDefaultChar (c : ascii) : bool :=
  negb (Ascii.eqb c " " || Ascii.eqb c ",").

Definition defaultClause : regex :=
  (word "DEFAULT" ;; Cls isSpace Plus ;; Cap 1 (Cls isDefaultChar Plus))%re.

(** [s.replace(/[\x22`]/g, empty)] and [s.replace(/\s/g, empty)] *)
Definition dropQuotes (s : string) : string :=
  replaceAll s (Cls isQuote One) "".
Definition dropSpaces (s : string) : string :=
  replaceAll s (Cls isSpace One) "".

(** [inner.split(",").map((c) => c.trim().replace(/[\x22`]/g, empty).toLowerCase())] *)
Definition columnList (inner : string) : list string :=
  map (fun c => toLowerCase (dropQuotes (trim c))) (split "," inner).

(** Lines 143-161: the clause as a column definition. *)
Definition columnOfLine (line upper : string) : option Column.t :=
  match match_ line columnDef with
  | Some colMatch =>
      let colName := toLowerCase (group 1 colMatch) in
      let colType := toUpperCase (trim (group 2 colMatch)) in
      let isPK := includes upper "PRIMARY KEY" in
      let isUnique := includes upper "UNIQUE" in
      let isNullable := negb (includes upper "NOT NULL") && negb isPK in
      let defMatch := match_ line defaultClause in
      Some {| Column.name := colName;
              Column.type := colType;
              Column.nullable := isNullable;
              Column.defaultVal :=
                match defMatch with
                | Some m => Some (group 1 m)
                | None => None
                end;
              Column.primaryKey := isPK;
              Column.unique := isUnique |}
  | None => None
  end.

(** One turn of the loop of lines 98-162; the state is
    [(columns, constraints)]. *)
Definition lineStep (tableName : string)
  (st : JsMap.t Column.t * list Constraint.t) (line : string)
  : JsMap.t Column.t * list Constraint.t :=
  let '(columns, constraints) := st in
  let upper := trim (toUpperCase line) in
  if startsWith upper "PRIMARY KEY" then
    match match_ line parenthesized with
    | Some colMatch =>
        (columns,
         push constraints
           {| Constraint.name := ("pk_" ++ tableName)%string;
              Constraint.type := "PRIMARY KEY";
              Constraint.columns := columnList (group 1 colMatch);
              Constraint.references := None |})
    | None => st
    end
  else if startsWith upper "UNIQUE" then
    match match_ line parenthesized with
    | Some colMatch =>
        (columns,
         push constraints
           {| Constraint.name :=
                ("uq_" ++ tableName ++ "_" ++ dropSpaces (group 1 colMatch))%string;
              Constraint.type := "UNIQUE";
              Constraint.columns := columnList (group 1 colMatch);
              Constraint.references := None |})
    | None => st
    end
  else if startsWith upper "FOREIGN KEY" || startsWith upper "CONSTRAINT" then
    match match_ line foreignKey with
    | Some fkMatch =>
        (columns,
         push constraints
           {| Constraint.name :=
                ("fk_" ++ tableName ++ "_"
                 ++ dropQuotes (trim (group 1 fkMatch)))%string;
              Constraint.type := "FOREIGN KEY";
              Constraint.columns := columnList (group 1 fkMatch);
              Constraint.references :=
                Some (toLowerCase (group 2 fkMatch) ++ "("
                      ++ toLowerCase (group 3 fkMatch) ++ ")")%string |})
    | None => st
    end
  else if startsWith upper "CHECK" || startsWith upper "INDEX" then st
  else
    match columnOfLine line upper with
    | Some col => (JsMap.set columns (Column.name col) col, constraints)
    | None => st
    end.

(** Lines 91-164: one match of [createRegex] becomes a table. *)
Definition tableOfMatch (m : captures) : Table.t :=
  let tableName := toLowerCase (group 1 m) in
  let body := group 2 m in
  let lines := filter nonEmpty (map trim (split "," body)) in
  let '(columns, constraints) := fold_left (lineStep tableName) lines ([], []) in
  {| Table.name := tableName;
     Table.columns := columns;
     Table.constraints := constraints |}.

(** The [while] loop of line 90: [exec] resumes after the last match. *)
Fixpoint execLoop (fuel : nat) (pos : nat) (rest : string)
  (tables : JsMap.t Table.t) : JsMap.t Table.t :=
  match fuel with
  | O => tables
  | S fuel' =>
      match search createRegex pos rest with
      | None => tables
      | Some (pos', rest', m) =>
          let table := tableOfMatch m in
          execLoop fuel' pos' rest' (JsMap.set tables (Table.name table) table)
      end
  end.

Definition clean (content : string) : string :=
  replaceAll
    (replaceAll (replaceAll content lineComment "") blockComment "")
    crlf (String LF EmptyString).

Definition parseSQL (content : string) : Schema.t :=
  let cleaned := clean content in
  {| Schema.tables := execLoop (S (String.length cleaned)) 0 cleaned [] |}.

End SQL.

(** ** The JSON schema parser

    [JSON.parse] belongs to the engine: the model starts from its outcome, a
    JSON value or the [SyntaxError] it throws.  Numbers are kept abstract,
    with the two observations the parser makes of them. *)

Module JSONSchema.

Inductive error : Type := SyntaxError | TypeError.

Inductive outcome (A : Type) : Type :=
| Return (a : A)
| Throw (e : error).

Arguments Return {A} a.
Arguments Throw {A} e.

Definition bind {A B : Type} (m : outcome A) (f : A -> outcome B)
  : outcome B :=
  match m with
  | Return a => f a
  | Throw e => Throw e
  end.

Notation "'let*' x ':=' m 'in' k" := (bind m (fun x => k))
  (at level 10, x name, m at level 100, k at level 200).

(** Whatever is thrown, it is not the [SyntaxError] of [JSON.parse]. *)
Definition noSyntaxError {A : Type} (m : outcome A) : Prop :=
  m <> Throw SyntaxError.

(** A [for] loop whose body may throw. *)
Fixpoint foldM {A S : Type} (step : S -> A -> outcome S) (l : list A) (st : S)
  : outcome S :=
  match l with
  | [] => Return st
  | x :: rest => let* st' := step st x in foldM step rest st'
  end.

(** What the parser builds: a constraint keeps the array it was given. *)
Record ParsedConstraint (value : Type) : Type := mkConstraint
  { name : string;
    type : string;
    columns : list value;
    references : option string }.

Record ParsedTable (value : Type) : Type := mkTable
  { tableName : string;
    tableColumns : JsMap.t Column.t;
    tableConstraints : list (ParsedConstraint value) }.

Arguments mkConstraint {value}.
Arguments mkTable {value}.

Section Parser.

Variable number : Type.
Variable Number_toString : number -> string.
Variable Number_isZero : number -> bool.

(** A parsed JSON value; an object lists its own properties in the
    order [Object.entries] gives them, each key once. *)
#[local] Unset Elimination Schemes.
Inductive value : Type :=
| JNull
| JBool (b : bool)
| JNumber (n : number)
| JString (s : string)
| JArray (items : list value)
| JObject (fields : list (string * value)).
#[local] Set Elimination Schemes.

Fixpoint lookup (key : string) (fields : list (string * value))
  : option value :=
  match fields with
  | [] => None
  | (k, v) :: rest => if String.eqb k key then Some v else lookup key rest
  end.

(** [v.key] for the property names the parser reads, none of which is
    an index, [length] or a name found on a prototype; [None] is
    [undefined]. *)
Definition getProp (v : value) (key : string) : outcome (option value) :=
  match v with
  | JNull => Throw TypeError
  | JObject fields => Return (lookup key fields)
  | _ => Return None
  end.

Definition truthyValue (v : option value) : bool :=
  match v with
  | None => false
  | Some JNull => false
  | Some (JBool b) => b
  | Some (JNumber n) => negb (Number_isZero n)
  | Some (JString s) => nonEmpty s
  | Some (JArray _) => true
  | Some (JObject _) => true
  end.

Definition indexKey (i : nat) : string :=
  NilEmpty.string_of_uint (Nat.to_uint i).

Definition indexed (items : list value) : list (string * value) :=
  combine (map indexKey (seq 0 (List.length items))) items.

Fixpoint characters (s : string) : list value :=
  match s with
  | EmptyString => []
  | String c rest => JString (String c EmptyString) :: characters rest
  end.

(** [Object.entries(v)] *)
Definition entries (v : value) : outcome (list (string * value)) :=
  match v with
  | JNull => Throw TypeError
  | JObject fields => Return fields
  | JArray items => Return (indexed items)
  | JString s => Return (indexed (characters s))
  | JBool _ => Return []
  | JNumber _ => Return []
  end.

Definition hasOwn (key : string) (fields : list (string * value)) : bool :=
  match lookup key fields with Some _ => true | None => false end.

(** [String(v)].  An array is joined with commas, [null] items giving
    the empty string; an object gives [[object Object]], unless it has
    an own [toString] property, which is not callable: then no
    conversion to a primitive exists. *)
Fixpoint String_ (v : value) : outcome string :=
  match v with
  | JNull => Return "null"
  | JBool true => Return "true"
  | JBool false => Return "false"
  | JNumber n => Return (Number_toString n)
  | JString s => Return s
  | JArray items =>
      (fix joinItems (l : list value) : outcome string :=
         match l with
         | [] => Return EmptyString
         | x :: rest =>
             let* s := match x with
                       | JNull => Return EmptyString
                       | _ => String_ x
                       end in
             match rest with
             | [] => Return s
             | _ :: _ =>
                 let* r := joinItems rest in
                 Return (s ++ "," ++ r)%string
             end
         end) items
  | JObject fields =>
      if hasOwn "toString" fields then Throw TypeError
      else Return "[object Object]"
  end.

(** [typeof v === "object"] on a truthy value. *)
Definition isObject (v : option value) : bool :=
  match v with
  | Some (JArray _) => true
  | Some (JObject _) => true
  | _ => false
  end.

(** Lines 186-194: one column definition. *)
Definition columnOf (colName : string) (col : value) : outcome Column.t :=
  let* ty := getProp col "type" in
  let* nullable := getProp col "nullable" in
  let* default := getProp col "default" in
  let* defaultVal :=
    match default with
    | None => Return None
    | Some JNull => Return None
    | Some d => let* s := String_ d in Return (Some s)
    end in
  let* primaryKey := getProp col "primaryKey" in
  let* unique := getProp col "unique" in
  Return
    {| Column.name := toLowerCase colName;
       Column.type :=
         toUpperCase (match ty with Some (JString s) => s | _ => "TEXT" end);
       Column.nullable :=
         match nullable with Some (JBool false) => false | _ => true end;
       Column.defaultVal := defaultVal;
       Column.primaryKey :=
         match primaryKey with Some (JBool true) => true | _ => false end;
       Column.unique :=
         match unique with Some (JBool true) => true | _ => false end |}.

Definition columnStep (columns : JsMap.t Column.t)
  (entry : string * value) : outcome (JsMap.t Column.t) :=
  let* col := columnOf (fst entry) (snd entry) in
  Return (JsMap.set columns (toLowerCase (fst entry)) col).

(** [String(v || empty)] *)
Definition stringOrEmpty (v : option value) : outcome string :=
  match v with
  | Some x => if truthyValue v then String_ x else Return EmptyString
  | None => Return EmptyString
  end.

(** Lines 200-206: one constraint. *)
Definition constraintOf (c : value) : outcome (ParsedConstraint value) :=
  let* n := getProp c "name" in
  let* name := stringOrEmpty n in
  let* t := getProp c "type" in
  let* type := stringOrEmpty t in
  let* cols := getProp c "columns" in
  let* refs := getProp c "references" in
  let* references :=
    match refs with
    | Some r =>
        if truthyValue refs then let* s := String_ r in Return (Some s)
        else Return None
    | None => Return None
    end in
  Return
    {| name := name;
       type := type;
       columns := match cols with Some (JArray items) => items | _ => [] end;
       references := references |}.

Definition constraintStep (constraints : list (ParsedConstraint value))
  (con : value) : outcome (list (ParsedConstraint value)) :=
  let* c := constraintOf con in
  Return (push constraints c).

(** One turn of the loop of lines 179-215. *)
Definition tableStep (tables : JsMap.t (ParsedTable value))
  (entry : string * value) : outcome (JsMap.t (ParsedTable value)) :=
  let '(tableName, def) := entry in
  let* cols := getProp def "columns" in
  let* columns :=
    if truthyValue cols && isObject cols
    then match cols with
         | Some cs => let* es := entries cs in foldM columnStep es []
         | None => Return []
         end
    else Return [] in
  let* cons := getProp def "constraints" in
  let* constraints :=
    match cons with
    | Some (JArray items) => foldM constraintStep items []
    | _ => Return []
    end in
  Return
    (JsMap.set tables (toLowerCase tableName)
       {| tableName := toLowerCase tableName;
          tableColumns := columns;
          tableConstraints := constraints |}).

(** Lines 177-217, from the parsed value on. *)
Definition schemaOf (json : value) : outcome (JsMap.t (ParsedTable value)) :=
  let* tables := getProp json "tables" in
  let tableSource :=
    match tables with
    | Some t => if truthyValue tables then t else json
    | None => json
    end in
  let* es := entries tableSource in
  foldM tableStep es [].

(** [parseJSONSchema], given what [JSON.parse(content)] does: [None] when
    it throws its [SyntaxError]. *)
Definition parseJSONSchema (parsed : option value)
  : outcome (JsMap.t (ParsedTable value)) :=
  match parsed with
  | None => Throw SyntaxError
  | Some json => schemaOf json
  end.

End Parser.

Arguments JNull {number}.
Arguments JBool {number} b.
Arguments JNumber {number} n.
Arguments JString {number} s.
Arguments JArray {number} items.
Arguments JObject {number} fields.

End JSONSchema.

(** ** What the SQL parser keeps true of its result *)

Module SQLInv.

(** A column as [columnOfLine] builds it, under its key. *)
Definition column (entry : string * Column.t) : Prop :=
let '(k, c) := entry in
Column.name c = k /\ toLowerCase k = k /\
toUpperCase (Column.type c) = Column.type c /\
(Column.primaryKey c = true -> Column.nullable c = false).

(** A constraint as [lineStep] builds it. *)
Definition constraint (c : Constraint.t) : Prop :=
((Constraint.type c = "PRIMARY KEY" /\ Constraint.references c = None) \/
 (Constraint.type c = "UNIQUE" /\ Constraint.references c = None) \/
 (Constraint.type c = "FOREIGN KEY" /\ Constraint.references c <> None)) /\
forall x, In x (Constraint.columns c) -> toLowerCase x = x.

Definition state (st : JsMap.t Column.t * list Constraint.t) : Prop :=
JsMap.wf (fst st) /\
(forall e, In e (fst st) -> column e) /\
(forall c, In c (snd st) -> constraint c).

(** A table as [tableOfMatch] builds it, under its key. *)
Definition table (entry : string * Table.t) : Prop :=
let '(k, t) := entry in
Table.name t = k /\ toLowerCase k = k /\
state (Table.columns t, Table.constraints t).

Definition tables (m : JsMap.t Table.t) : Prop :=
JsMap.wf m /\ forall e, In e m -> table e.

End SQLInv.

(** [c] occurs in [s]. *)
Fixpoint occurs (c : ascii) (s : string) : bool :=
  match s with
  | EmptyString => false
  | String x rest => Ascii.eqb x c || occurs c rest
  end.

(** [s'] is what is left of [s] after a prefix. *)
Definition suffixOf (s' s : string) : Prop := exists p, s = (p ++ s')%string.

(** Where a match continues from is a suffix of where it started. *)
Definition reaches (k : Regex.cont) (s : string) (res : Regex.result) : Prop :=
  exists pos' s' caps', suffixOf s' s /\ k pos' s' caps' = Some res.

(** The last expression of a sequence. *)
Fixpoint lastOf (r : regex) : regex :=
  match r with
  | Cat _ r2 => lastOf r2
  | _ => r
  end.

(** A SQL text for the checks below, and the table it parses to. *)
Module SampleSQL.

Definition text : string :=
"CREATE TABLE Users (Id INT PRIMARY KEY, Email varchar(255), PRIMARY KEY (id), FOREIGN KEY (org) REFERENCES Orgs(Id));".

Definition users : Table.t :=
Table.mk "users"
  [("id", Column.mk "id" "INT PRIMARY KEY" false None true false);
   ("email", Column.mk "email" "VARCHAR(255)" true None false false)]
  [Constraint.mk "pk_users" "PRIMARY KEY" ["id"] None;
   Constraint.mk "fk_users_org" "FOREIGN KEY" ["org"] (Some "orgs(id)")].

Definition unfinished : string := "CREATE TABLE users (id INT)".

End SampleSQL.

(** ** What the JSON parser keeps true of its result *)

Module JSONInv.

Import JSONSchema.

Definition column (entry : string * Column.t) : Prop :=
let '(k, c) := entry in
Column.name c = k /\ toLowerCase k = k /\
toUpperCase (Column.type c) = Column.type c.

Definition columns (m : JsMap.t Column.t) : Prop :=
JsMap.wf m /\ forall e, In e m -> column e.

Definition table {value : Type} (entry : string * ParsedTable value) : Prop :=
let '(k, t) := entry in
tableName _ t = k /\ toLowerCase k = k /\ columns (tableColumns _ t).

Definition tables {value : Type} (m : JsMap.t (ParsedTable value)) : Prop :=
JsMap.wf m /\ forall e, In e m -> table e.

End JSONInv.

(** ** Documents the JSON parser accepts

    No table, column or constraint definition is [null], and the fields
    that [String(...)] is applied to are not arrays or objects. *)

Module JSONShape.

Import JSONSchema.


Section Shape.

Variable number : Type.
Variable Number_isZero : number -> bool.



(** The values [Object.entries] lists. *)
Definition items (v : value number) : list (value number) :=
match v with
| JObject fields => map snd fields
| JArray l => l
| JString s => characters number s
| _ => []
end.




(** [json.tables || json] *)
Definition tableSource (json : value number) : value number :=
match json with
| JObject fields =>
  match lookup number "tables" fields with
  | Some t => if truthyValue number Number_isZero (Some t) then t else json
  | None => json
  end
| _ => json
end.


End Shape.

End JSONShape.

(** ** The output formatters

    The glyphs of the source are not ASCII and [basename] is the platform's:
    both are parameters.  A loop that pushes one line for each element is
    written as a [map], one that pushes several as a [flat_map]. *)

Module Ansi.

Definition ESC : ascii := "027"%char.
Definition code (s : string) : string := String ESC s.

Definition reset : string := code "[0m".
Definition bold : string := code "[1m".
Definition dim : string := code "[2m".
Definition red : string := code "[31m".
Definition green : string := code "[32m".
Definition yellow : string := code "[33m".
Definition cyan : string := code "[36m".
Definition white : string := code "[37m".
Definition bgRed : string := code "[41m".

End Ansi.

(** A length or a boolean inside a template string. *)
Definition showNat (n : nat) : string := NilEmpty.string_of_uint (Nat.to_uint n).
Definition showBool (b : bool) : string := if b then "true" else "false".

(** [d ?? "none"] *)
Definition orNone (d : option string) : string :=
  match d with Some s => s | None => "none" end.

(** Lines 393-396 and 471-474: what changed in a column. *)
Definition changeParts (ch : ColumnChange.t) : list string :=
  (if negb (String.eqb (ColumnChange.oldType ch) (ColumnChange.newType ch))
   then ["type: " ++ ColumnChange.oldType ch ++ " -> " ++ ColumnChange.newType ch]%string
   else [])
  ++ (if negb (Bool.eqb (ColumnChange.oldNullable ch) (ColumnChange.newNullable ch))
      then ["nullable: " ++ showBool (ColumnChange.oldNullable ch) ++ " -> "
            ++ showBool (ColumnChange.newNullable ch)]%string
      else [])
  ++ (if negb (optStrictEq (ColumnChange.oldDefault ch) (ColumnChange.newDefault ch))
      then ["default: " ++ orNone (ColumnChange.oldDefault ch) ++ " -> "
            ++ orNone (ColumnChange.newDefault ch)]%string
      else []).

Definition total (diff : Diff.t) : nat :=
  List.length (Diff.addedTables diff) + List.length (Diff.removedTables diff)
  + List.length (Diff.changedTables diff).

Section Formatters.

Variable basename : string -> string.

(** The warning sign, the check mark and the ballot cross of the terminal
  report; the cross mark, the check box, the warning emoji and the cycle
  arrows of the Markdown report. *)
Variables warnSign okSign crossSign : string.
Variables crossMark checkBox warnEmoji cycleArrows : string.

Import Ansi.

(** *** [formatTerminal], lines 348-419 *)

Definition terminalBanner : string :=
("  " ++ bgRed ++ white ++ bold ++ " " ++ warnSign
 ++ " BREAKING CHANGES DETECTED " ++ reset)%string.

Definition terminalIdentical : string :=
("  " ++ green ++ okSign ++ " Schemas are identical" ++ reset)%string.

Definition terminalHead (diff : Diff.t) (oldFile newFile : string) : list string :=
[EmptyString;
 (bold ++ cyan ++ "  Schema Diff" ++ reset)%string;
 (dim ++ "  " ++ basename oldFile ++ " -> " ++ basename newFile ++ reset)%string;
 EmptyString]
++ (if hasBreakingChanges diff then [terminalBanner; EmptyString] else []).

Definition terminalDropped (t : string) : string :=
("  " ++ red ++ bold ++ crossSign ++ " DROPPED TABLE" ++ reset ++ " "
 ++ red ++ t ++ reset)%string.

Definition terminalNew (t : string) : string :=
("  " ++ green ++ bold ++ "+ NEW TABLE" ++ reset ++ " "
 ++ green ++ t ++ reset)%string.

Definition terminalModified (t : TableDiff.t) : string :=
("  " ++ yellow ++ bold ++ "~ MODIFIED" ++ reset ++ " "
 ++ yellow ++ TableDiff.name t ++ reset)%string.

Definition terminalColumn (color sign : string) (col : Column.t) : string :=
("    " ++ color ++ sign ++ " " ++ Column.name col ++ reset ++ " " ++ dim
 ++ "(" ++ Column.type col ++ ")" ++ reset)%string.

Definition terminalChange (ch : ColumnChange.t) : string :=
let marker := if ColumnChange.breaking ch
              then (red ++ warnSign)%string else (yellow ++ "~")%string in
("    " ++ marker ++ " " ++ ColumnChange.name ch ++ reset ++ " " ++ dim
 ++ "(" ++ join ", " (changeParts ch) ++ ")" ++ reset)%string.

Definition terminalConstraint (color sign : string) (con : Constraint.t) : string :=
("    " ++ color ++ sign ++ " constraint " ++ Constraint.type con ++ reset
 ++ " " ++ dim ++ "(" ++ join ", " (Constraint.columns con) ++ ")" ++ reset)%string.

Definition terminalTable (t : TableDiff.t) : list string :=
[terminalModified t]
++ map (terminalColumn red "-") (TableDiff.removedColumns t)
++ map (terminalColumn green "+") (TableDiff.addedColumns t)
++ map terminalChange (TableDiff.changedColumns t)
++ map (terminalConstraint red "-") (TableDiff.removedConstraints t)
++ map (terminalConstraint green "+") (TableDiff.addedConstraints t)
++ [EmptyString].

Definition terminalStats (diff : Diff.t) : list string :=
(if truthy (List.length (Diff.addedTables diff))
 then [green ++ "+" ++ showNat (List.length (Diff.addedTables diff))
       ++ " tables" ++ reset]%string else [])
++ (if truthy (List.length (Diff.removedTables diff))
    then [red ++ "-" ++ showNat (List.length (Diff.removedTables diff))
          ++ " tables" ++ reset]%string else [])
++ (if truthy (List.length (Diff.changedTables diff))
    then [yellow ++ "~" ++ showNat (List.length (Diff.changedTables diff))
          ++ " modified" ++ reset]%string else []).

Definition terminalSummary (diff : Diff.t) : string :=
("  " ++ dim ++ "Summary:" ++ reset ++ " " ++ join "  " (terminalStats diff))%string.

Definition terminalLines (diff : Diff.t) (oldFile newFile : string) : list string :=
if Nat.eqb (total diff) 0
then terminalHead diff oldFile newFile ++ [terminalIdentical; EmptyString]
else
  terminalHead diff oldFile newFile
  ++ map terminalDropped (Diff.removedTables diff)
  ++ map terminalNew (Diff.addedTables diff)
  ++ (if truthy (numOr (List.length (Diff.addedTables diff))
                       (List.length (Diff.removedTables diff)))
      then [EmptyString] else [])
  ++ flat_map terminalTable (Diff.changedTables diff)
  ++ [terminalSummary diff; EmptyString].

Definition formatTerminal (diff : Diff.t) (oldFile newFile : string) : string :=
join (String LF EmptyString) (terminalLines diff oldFile newFile).

(** *** [formatMarkdown], lines 421-494 *)

Definition markdownBanner : string :=
("> **" ++ warnSign ++ " BREAKING CHANGES DETECTED**")%string.

Definition markdownIdentical : string :=
"Schemas are identical. No differences found.".

Definition markdownHead (diff : Diff.t) (oldFile newFile : string) : list string :=
["# Schema Diff";
 EmptyString;
 ("**" ++ basename oldFile ++ "** -> **" ++ basename newFile ++ "**")%string;
 EmptyString]
++ (if hasBreakingChanges diff then [markdownBanner; EmptyString] else []).

Definition markdownBullet (t : string) : string := ("- `" ++ t ++ "`")%string.

Definition markdownRemoved (col : Column.t) : string :=
("| `" ++ Column.name col ++ "` | " ++ crossMark ++ " Removed | was "
 ++ Column.type col ++ " |")%string.

Definition markdownAdded (col : Column.t) : string :=
("| `" ++ Column.name col ++ "` | " ++ checkBox ++ " Added | "
 ++ Column.type col ++ " |")%string.

Definition markdownChange (ch : ColumnChange.t) : string :=
let icon := if ColumnChange.breaking ch
            then (warnEmoji ++ " Breaking")%string
            else (cycleArrows ++ " Changed")%string in
("| `" ++ ColumnChange.name ch ++ "` | " ++ icon ++ " | "
 ++ join ", " (changeParts ch) ++ " |")%string.

Definition markdownRemovedConstraint (con : Constraint.t) : string :=
("- " ++ crossMark ++ " Removed constraint: " ++ Constraint.type con ++ " ("
 ++ join ", " (Constraint.columns con) ++ ")")%string.

Definition markdownAddedConstraint (con : Constraint.t) : string :=
("- " ++ checkBox ++ " Added constraint: " ++ Constraint.type con ++ " ("
 ++ join ", " (Constraint.columns con) ++ ")")%string.

Definition markdownTable (t : TableDiff.t) : list string :=
[("### `" ++ TableDiff.name t ++ "`")%string; EmptyString]
++ (if truthy (numOr (numOr (List.length (TableDiff.removedColumns t))
                            (List.length (TableDiff.addedColumns t)))
                     (List.length (TableDiff.changedColumns t)))
    then ["| Column | Change | Details |"; "|--------|--------|---------|"]
         ++ map markdownRemoved (TableDiff.removedColumns t)
         ++ map markdownAdded (TableDiff.addedColumns t)
         ++ map markdownChange (TableDiff.changedColumns t)
         ++ [EmptyString]
    else [])
++ (if truthy (numOr (List.length (TableDiff.removedConstraints t))
                     (List.length (TableDiff.addedConstraints t)))
    then map markdownRemovedConstraint (TableDiff.removedConstraints t)
         ++ map markdownAddedConstraint (TableDiff.addedConstraints t)
         ++ [EmptyString]
    else []).

Definition markdownLines (diff : Diff.t) (oldFile newFile : string) : list string :=
if Nat.eqb (total diff) 0
then markdownHead diff oldFile newFile ++ [markdownIdentical]
else
  markdownHead diff oldFile newFile
  ++ (if truthy (List.length (Diff.removedTables diff))
      then ["## Dropped Tables"] ++ map markdownBullet (Diff.removedTables diff)
           ++ [EmptyString]
      else [])
  ++ (if truthy (List.length (Diff.addedTables diff))
      then ["## New Tables"] ++ map markdownBullet (Diff.addedTables diff)
           ++ [EmptyString]
      else [])
  ++ (if truthy (List.length (Diff.changedTables diff))
      then ["## Modified Tables"; EmptyString]
           ++ flat_map markdownTable (Diff.changedTables diff)
      else []).

Definition formatMarkdown (diff : Diff.t) (oldFile newFile : string) : string :=
join (String LF EmptyString) (markdownLines diff oldFile newFile).

End Formatters.

(** ** [formatJSON], lines 496-517 *)

Module Report.

Record Summary : Type := mkSummary
{ addedTables : nat;
  removedTables : nat;
  modifiedTables : nat }.

Record TableReport : Type := mkTable
{ name : string;
  addedColumns : list (string * string);
  removedColumns : list (string * string);
  changedColumns : list ColumnChange.t;
  addedConstraints : list Constraint.t;
  removedConstraints : list Constraint.t }.

Record t : Type := mk
{ oldFile : string;
  newFile : string;
  breaking : bool;
  summary : Summary;
  added : list string;
  removed : list string;
  changed : list TableReport }.

End Report.

Definition nameAndType (col : Column.t) : string * string :=
  (Column.name col, Column.type col).

Definition formatJSON (basename : string -> string) (diff : Diff.t)
  (oldFile newFile : string) : Report.t :=
  {| Report.oldFile := basename oldFile;
     Report.newFile := basename newFile;
     Report.breaking := hasBreakingChanges diff;
     Report.summary :=
       {| Report.addedTables := List.length (Diff.addedTables diff);
          Report.removedTables := List.length (Diff.removedTables diff);
          Report.modifiedTables := List.length (Diff.changedTables diff) |};
     Report.added := Diff.addedTables diff;
     Report.removed := Diff.removedTables diff;
     Report.changed :=
       map (fun t =>
              {| Report.name := TableDiff.name t;
                 Report.addedColumns := map nameAndType (TableDiff.addedColumns t);
                 Report.removedColumns := map nameAndType (TableDiff.removedColumns t);
                 Report.changedColumns := TableDiff.changedColumns t;
                 Report.addedConstraints := TableDiff.addedConstraints t;
                 Report.removedConstraints := TableDiff.removedConstraints t |})
           (Diff.changedTables diff) |}.

(** ** [main], lines 558-622

    Reading and parsing a file is the parameter [parseFile], which gives the
    schema or the message of the error thrown; what [main] prints and how it
    exits is the value returned. *)

Module CLI.

Record Flags : Type := mkFlags
{ json : bool;
  breakingOnly : bool;
  format : string }.

Inductive outcome : Type :=
| Help                                   (* printHelp(), exit 0 *)
| Version                                (* the version, exit 0 *)
| UsageError (asJSON : bool)             (* two files are required, exit 1 *)
| Failure (asJSON : bool) (msg : string) (* the error caught, exit 1 *)
| PrintJSON (report : Report.t)
| PrintText (text : string).

(** [args.includes(x)] *)
Definition includes (args : list string) (x : string) : bool :=
existsb (String.eqb x) args.

(** [args.indexOf(x)], [None] for [-1] *)
Fixpoint indexOf (args : list string) (x : string) : option nat :=
match args with
| [] => None
| a :: rest =>
    if String.eqb a x then Some 0
    else match indexOf rest x with Some i => Some (S i) | None => None end
end.

(** Lines 571-580. *)
Definition flagsOf (args : list string) : Flags :=
{| json := includes args "--json";
   breakingOnly := includes args "--breaking-only";
   format :=
     match indexOf args "--format" with
     | Some formatIdx =>
         match nth_error args (formatIdx + 1) with
         | Some v => if nonEmpty v then v else "terminal"
         | None => "terminal"
         end
     | None => "terminal"
     end |}.

(** Line 582. *)
Definition positional (args : list string) : list string :=
filter (fun a => negb (startsWith a "--")) args.

Section Main.

Variable basename : string -> string.
Variables warnSign okSign crossSign : string.
Variables crossMark checkBox warnEmoji cycleArrows : string.
Variable parseFile : string -> string + Schema.t.

(** Lines 600-612, once both files are parsed. *)
Definition report (flags : Flags) (oldSchema newSchema : Schema.t)
(oldFile newFile : string) : outcome :=
let diff := diffSchemas oldSchema newSchema in
let diff := if breakingOnly flags then filterBreakingOnly diff else diff in
if json flags then PrintJSON (formatJSON basename diff oldFile newFile)
else if String.eqb (format flags) "markdown"
   then PrintText (formatMarkdown basename warnSign crossMark checkBox
                     warnEmoji cycleArrows diff oldFile newFile)
   else PrintText (formatTerminal basename warnSign okSign crossSign
                     diff oldFile newFile).

Definition main (args : list string) : outcome :=
if includes args "--help" || includes args "-h" then Help
else if includes args "--version" || includes args "-v" then Version
else
let flags := flagsOf args in
match positional args with
| oldFile :: newFile :: _ =>
    match parseFile oldFile with
    | inl msg => Failure (json flags) msg
    | inr oldSchema =>
        match parseFile newFile with
        | inl msg => Failure (json flags) msg
        | inr newSchema => report flags oldSchema newSchema oldFile newFile
        end
    end
| _ => UsageError (json flags)
end.

End Main.

End CLI.

(** None of the arguments asks for the help or the version. *)
Definition noExit (args : list string) : bool :=
  negb (CLI.includes args "--help" || CLI.includes args "-h"
        || CLI.includes args "--version" || CLI.includes args "-v").

(** ** Lemmas: loops that push *)

Section Collect.

Context {A B : Type}.

Lemma fold_pushIf (f : A -> option B) (l : list A) (acc : list B) :
  fold_left (pushIf f) l acc = acc ++ collect f l.
Proof.
  revert acc; induction l as [|x rest IH]; intros acc; simpl.
  - now rewrite app_nil_r.
  - unfold pushIf at 2. destruct (f x) as [y|].
    + rewrite IH. unfold push. now rewrite <- app_assoc.
    + apply IH.
Qed.

Lemma fold_left_same (g h : list B -> A -> list B) (l : list A) :
  (forall acc x, In x l -> g acc x = h acc x) ->
  forall acc, fold_left g l acc = fold_left h l acc.
Proof.
  induction l as [|x rest IH]; intros E acc; simpl; [reflexivity|].
  rewrite (E acc x (or_introl eq_refl)).
  apply IH. intros a y Hy. apply E. now right.
Qed.

Lemma in_collect (f : A -> option B) (l : list A) (y : B) :
  In y (collect f l) <-> exists x, In x l /\ f x = Some y.
Proof.
  induction l as [|x rest IH]; simpl.
  - split; [tauto | intros (x & [] & _)].
  - destruct (f x) as [z|] eqn:E; simpl; rewrite IH; split.
    + intros [->|(a & Ha & Fa)]; [exists x | exists a]; auto.
    + intros (a & [->|Ha] & Fa); [left; congruence | right; eauto].
    + intros (a & Ha & Fa); eauto.
    + intros (a & [->|Ha] & Fa); [congruence | eauto].
Qed.

Lemma collect_nil (f : A -> option B) (l : list A) :
  (forall x, In x l -> f x = None) -> collect f l = [].
Proof.
  induction l as [|x rest IH]; intros E; simpl; [reflexivity|].
  rewrite (E x (or_introl eq_refl)). apply IH. intros y Hy. apply E. now right.
Qed.

End Collect.

(** ** Facts about [JsMap] *)

Section MapFacts.

Context {V : Type}.

Lemma get_In (m : JsMap.t V) (k : string) (v : V) :
  JsMap.get m k = Some v -> In (k, v) m.
Proof.
  induction m as [|[k' v'] rest IH]; simpl; [discriminate|].
  destruct (String.eqb_spec k' k) as [->|N].
  - intros [= ->]. now left.
  - intros H. right. now apply IH.
Qed.

Lemma get_of_wf (m : JsMap.t V) (k : string) (v : V) :
  JsMap.wf m -> In (k, v) m -> JsMap.get m k = Some v.
Proof.
  unfold JsMap.wf, JsMap.keys.
  induction m as [|[k' v'] rest IH]; simpl; [tauto|].
  intros W [E|I].
  - injection E as -> ->. now rewrite String.eqb_refl.
  - inversion W as [|? ? N W']; subst.
    destruct (String.eqb_spec k' k) as [->|_].
    + exfalso. apply N. apply in_map_iff. now exists (k, v).
    + now apply IH.
Qed.

(** The key of an entry is always found: [get(colName)!] is defined. *)
Lemma get_of_key (m : JsMap.t V) (k : string) :
  In k (JsMap.keys m) -> exists v, JsMap.get m k = Some v.
Proof.
  unfold JsMap.keys.
  induction m as [|[k' v'] rest IH]; simpl; [tauto|].
  destruct (String.eqb_spec k' k) as [->|N]; [eauto|].
  intros [E|I]; [contradiction | now apply IH].
Qed.

Lemma has_of_key (m : JsMap.t V) (k : string) :
  In k (JsMap.keys m) -> JsMap.has m k = true.
Proof.
  intros I. unfold JsMap.has. now destruct (get_of_key m k I) as [v ->].
Qed.

Lemma has_of_entry (m : JsMap.t V) (k : string) (v : V) :
  In (k, v) m -> JsMap.has m k = true.
Proof.
  intros I. apply has_of_key. unfold JsMap.keys.
  apply in_map_iff. now exists (k, v).
Qed.

End MapFacts.

(** ** Facts about the JavaScript operators *)

Lemma optStrictEq_spec (a b : option string) :
  optStrictEq a b = true <-> a = b.
Proof.
  destruct a as [x|], b as [y|]; simpl; try (split; congruence).
  rewrite String.eqb_eq. split; congruence.
Qed.

Lemma optStrictEq_refl (a : option string) : optStrictEq a a = true.
Proof. now apply optStrictEq_spec. Qed.

Lemma truthy_numOr (a b : nat) : truthy (numOr a b) = truthy a || truthy b.
Proof. unfold truthy, numOr. destruct a; simpl; [reflexivity|reflexivity]. Qed.

Lemma truthy_length {A : Type} (l : list A) :
  truthy (List.length l) = false <-> l = [].
Proof. destruct l; simpl; split; intros H; try reflexivity; discriminate H. Qed.

Lemma Set_has_In (s : list string) (k : string) :
  Set_has s k = true <-> In k s.
Proof.
  unfold Set_has. rewrite existsb_exists. split.
  - intros (x & I & E). apply String.eqb_eq in E. now subst.
  - intros I. exists k. split; [assumption | apply String.eqb_refl].
Qed.

(** ** The loops of [diffSchemas] as collections *)

Lemma columnStep_eq (oldTable : Table.t) (a : list Column.t)
  (c : list ColumnChange.t) (entry : string * Column.t) :
  columnStep oldTable (a, c) entry =
  (a ++ match addedOf oldTable entry with Some y => [y] | None => [] end,
   c ++ match changedOf oldTable entry with Some y => [y] | None => [] end).
Proof.
  destruct entry as [colName newCol].
  unfold columnStep, addedOf, changedOf, push; simpl.
  destruct (JsMap.get (Table.columns oldTable) colName) as [oldCol|];
    [destruct (columnDiffers oldCol newCol)|];
    now rewrite ?app_nil_r.
Qed.

Lemma columnLoop_from (oldTable : Table.t) (cols : JsMap.t Column.t)
  (a : list Column.t) (c : list ColumnChange.t) :
  fold_left (columnStep oldTable) cols (a, c) =
  (a ++ collect (addedOf oldTable) cols, c ++ collect (changedOf oldTable) cols).
Proof.
  revert a c; induction cols as [|entry rest IH]; intros a c.
  - simpl. now rewrite !app_nil_r.
  - cbn [fold_left collect]. rewrite columnStep_eq, IH.
    destruct (addedOf oldTable entry), (changedOf oldTable entry);
      rewrite <- ?app_assoc; simpl; now rewrite ?app_nil_r.
Qed.

Lemma columnLoop_collect (oldTable newTable : Table.t) :
  columnLoop oldTable newTable =
  (collect (addedOf oldTable) (Table.columns newTable),
   collect (changedOf oldTable) (Table.columns newTable)).
Proof. unfold columnLoop. now rewrite columnLoop_from. Qed.

Lemma removedLoop_collect (oldTable newTable : Table.t) :
  removedLoop oldTable newTable =
  collect (removedOf oldTable newTable) (JsMap.keys (Table.columns oldTable)).
Proof.
  unfold removedLoop.
  rewrite (fold_left_same _ (pushIf (removedOf oldTable newTable))).
  - now rewrite fold_pushIf.
  - intros acc k _. unfold removedStep, pushIf, removedOf.
    destruct (negb _); [|reflexivity].
    now destruct (JsMap.get _ k).
Qed.

Lemma constraintLoop_collect (these others : list Constraint.t) :
  constraintLoop these others = collect (unmatched others) these.
Proof.
  unfold constraintLoop.
  rewrite (fold_left_same _ (pushIf (unmatched others))).
  - now rewrite fold_pushIf.
  - intros acc con _. unfold constraintStep, pushIf, unmatched.
    now destruct (negb _).
Qed.

Lemma tableDiff_fields (name : string) (oldTable newTable : Table.t) :
  tableDiff name oldTable newTable =
  {| TableDiff.name := name;
     TableDiff.addedColumns :=
       collect (addedOf oldTable) (Table.columns newTable);
     TableDiff.removedColumns :=
       collect (removedOf oldTable newTable) (JsMap.keys (Table.columns oldTable));
     TableDiff.changedColumns :=
       collect (changedOf oldTable) (Table.columns newTable);
     TableDiff.addedConstraints :=
       collect (unmatched (Table.constraints oldTable)) (Table.constraints newTable);
     TableDiff.removedConstraints :=
       collect (unmatched (Table.constraints newTable)) (Table.constraints oldTable) |}.
Proof.
  unfold tableDiff.
  now rewrite columnLoop_collect, removedLoop_collect, !constraintLoop_collect.
Qed.

Lemma changedTables_collect (oldSchema newSchema : Schema.t) :
  Diff.changedTables (diffSchemas oldSchema newSchema) =
  collect (changedOfTable oldSchema) (Schema.tables newSchema).
Proof.
  simpl.
  rewrite (fold_left_same _ (pushIf (changedOfTable oldSchema))).
  - now rewrite fold_pushIf.
  - intros acc [name newTable] _. unfold tableStep, pushIf, changedOfTable; simpl.
    destruct (JsMap.get _ name) as [oldTable|]; [|reflexivity].
    now destruct (anyChange _).
Qed.

Lemma removedTables_collect (oldSchema newSchema : Schema.t) :
  Diff.removedTables (diffSchemas oldSchema newSchema) =
  collect (lacking (Schema.tables newSchema)) (JsMap.keys (Schema.tables oldSchema)).
Proof.
  simpl.
  rewrite (fold_left_same _ (pushIf (lacking (Schema.tables newSchema)))).
  - now rewrite fold_pushIf.
  - intros acc name _. unfold removedTableStep, pushIf, lacking.
    now destruct (negb _).
Qed.

Lemma addedTables_collect (oldSchema newSchema : Schema.t) :
  Diff.addedTables (diffSchemas oldSchema newSchema) =
  collect (lacking (Schema.tables oldSchema)) (JsMap.keys (Schema.tables newSchema)).
Proof.
  simpl.
  rewrite (fold_left_same _ (pushIf (lacking (Schema.tables oldSchema)))).
  - now rewrite fold_pushIf.
  - intros acc name _. unfold addedTableStep, pushIf, lacking.
    now destruct (negb _).
Qed.

Lemma anyChange_false (td : TableDiff.t) :
  anyChange td = false <->
  TableDiff.addedColumns td = [] /\ TableDiff.removedColumns td = [] /\
  TableDiff.changedColumns td = [] /\ TableDiff.addedConstraints td = [] /\
  TableDiff.removedConstraints td = [].
Proof.
  unfold anyChange. rewrite !truthy_numOr, !orb_false_iff, !truthy_length.
  tauto.
Qed.

Lemma keepsTable_false (t : TableDiff.t) :
  keepsTable t = false <->
  TableDiff.removedColumns t = [] /\ TableDiff.changedColumns t = [] /\
  TableDiff.removedConstraints t = [].
Proof.
  unfold keepsTable. rewrite !truthy_numOr, !orb_false_iff, !truthy_length.
  tauto.
Qed.

(** ** Small checks of the embedding *)

Example diff_v1_v2 :
  diffSchemas Sample.schema_v1 Sample.schema_v2 =
  Diff.mk [] ["orders"]
    [TableDiff.mk "users" [Sample.col "name" "TEXT" true None] []
       [ColumnChange.mk "email" "TEXT" "TEXT" true false None None true]
       [] []].
Proof. reflexivity. Qed.

Example breaking_v1_v2 :
  hasBreakingChanges (diffSchemas Sample.schema_v1 Sample.schema_v2) = true.
Proof. reflexivity. Qed.

(** ** The diff of a schema with itself *)

Lemma columnDiffers_same (c : Column.t) : columnDiffers c c = false.
Proof.
  unfold columnDiffers.
  now rewrite String.eqb_refl, Bool.eqb_reflx, optStrictEq_refl.
Qed.

Lemma unmatched_same (cs : list Constraint.t) :
  collect (unmatched cs) cs = [].
Proof.
  apply collect_nil. intros con I. unfold unmatched.
  replace (Set_has _ _) with true; [reflexivity|].
  symmetry. apply Set_has_In. now apply in_map.
Qed.

Lemma lacking_same (m : JsMap.t Table.t) :
  collect (lacking m) (JsMap.keys m) = [].
Proof.
  apply collect_nil. intros k I. unfold lacking.
  now rewrite (has_of_key m k I).
Qed.

Lemma tableDiff_same (name : string) (t : Table.t) :
  JsMap.wf (Table.columns t) ->
  tableDiff name t t = TableDiff.mk name [] [] [] [] [].
Proof.
  intros W. rewrite tableDiff_fields, !unmatched_same. f_equal.
  - apply collect_nil. intros [colName c] I. unfold addedOf; simpl.
    now rewrite (get_of_wf _ _ _ W I).
  - apply collect_nil. intros k I. unfold removedOf.
    now rewrite (has_of_key _ k I).
  - apply collect_nil. intros [colName c] I. unfold changedOf; simpl.
    now rewrite (get_of_wf _ _ _ W I), columnDiffers_same.
Qed.

(** C7.  The diff of a schema with itself is empty: no added table, no
    removed table and no changed table, for every schema whose maps hold
    each key once. *)
Theorem diffSchemas_same (S : Schema.t) :
  wfSchema S -> diffSchemas S S = Diff.mk [] [] [].
Proof.
  intros [WT WC].
  pose proof (addedTables_collect S S) as HA.
  pose proof (removedTables_collect S S) as HR.
  pose proof (changedTables_collect S S) as HC.
  rewrite lacking_same in HA, HR.
  destruct (diffSchemas S S) as [a r c]; simpl in *. subst a r. f_equal.
  rewrite HC. apply collect_nil. intros [name t] I.
  unfold changedOfTable; simpl.
  rewrite (get_of_wf _ _ _ WT I), (tableDiff_same name t (WC name t I)).
  reflexivity.
Qed.

Lemma diffSchemas_same_witness :
  diffSchemas Sample.schema_v1 Sample.schema_v1 = Diff.mk [] [] [].
Proof.
  apply (diffSchemas_same Sample.schema_v1). split.
  - unfold JsMap.wf; simpl. repeat constructor; simpl; intuition discriminate.
  - simpl. intros name t [E|[E|[]]]; injection E as <- <-;
      unfold JsMap.wf; simpl; repeat constructor; simpl; intuition discriminate.
Defined.

(** C8.  Added and removed tables swap when the two schemas are swapped,
    as equal sequences. *)
Theorem added_removed_swap (A B : Schema.t) :
  Diff.addedTables (diffSchemas A B) = Diff.removedTables (diffSchemas B A) /\
  Diff.removedTables (diffSchemas A B) = Diff.addedTables (diffSchemas B A).
Proof.
  rewrite !addedTables_collect, !removedTables_collect. split; reflexivity.
Qed.

(** ** Changed tables always carry a change *)

Lemma tableDiff_name (name : string) (oldTable newTable : Table.t) :
  TableDiff.name (tableDiff name oldTable newTable) = name.
Proof. now rewrite tableDiff_fields. Qed.

Lemma anyChange_true (td : TableDiff.t) : anyChange td = true <-> someChange td.
Proof.
  unfold someChange. split.
  - intros T.
    destruct (TableDiff.addedColumns td) eqn:E1; [|left; discriminate].
    destruct (TableDiff.removedColumns td) eqn:E2; [|right; left; discriminate].
    destruct (TableDiff.changedColumns td) eqn:E3;
      [|right; right; left; discriminate].
    destruct (TableDiff.addedConstraints td) eqn:E4;
      [|right; right; right; left; discriminate].
    destruct (TableDiff.removedConstraints td) eqn:E5;
      [|right; right; right; right; discriminate].
    exfalso. assert (F : anyChange td = false) by (apply anyChange_false; tauto).
    congruence.
  - intros S. destruct (anyChange td) eqn:E; [reflexivity|].
    apply anyChange_false in E. tauto.
Qed.

Lemma in_changedTables (oldSchema newSchema : Schema.t) (td : TableDiff.t) :
  In td (Diff.changedTables (diffSchemas oldSchema newSchema)) <->
  exists name oldTable newTable,
    In (name, newTable) (Schema.tables newSchema) /\
    JsMap.get (Schema.tables oldSchema) name = Some oldTable /\
    td = tableDiff name oldTable newTable /\ anyChange td = true.
Proof.
  rewrite changedTables_collect, in_collect. unfold changedOfTable. split.
  - intros ([name newTable] & I & E); simpl in E.
    destruct (JsMap.get _ name) as [oldTable|] eqn:G; [|discriminate].
    destruct (anyChange _) eqn:C; [|discriminate].
    injection E as <-. now exists name, oldTable, newTable.
  - intros (name & oldTable & newTable & I & G & -> & C).
    exists (name, newTable). simpl. now rewrite G, C.
Qed.

(** C9.  Every table diff in the [changedTables] of a diff computed by
    [diffSchemas], and of a diff returned by [filterBreakingOnly], has a
    non-empty list among its five; and a table that is in both schemas with
    five empty lists has no entry in [changedTables]. *)
Theorem changedTables_have_change :
  (forall oldSchema newSchema td,
      In td (Diff.changedTables (diffSchemas oldSchema newSchema)) ->
      someChange td) /\
  (forall diff td,
      In td (Diff.changedTables (filterBreakingOnly diff)) -> someChange td) /\
  (forall oldSchema newSchema name oldTable newTable,
      JsMap.wf (Schema.tables newSchema) ->
      JsMap.get (Schema.tables oldSchema) name = Some oldTable ->
      JsMap.get (Schema.tables newSchema) name = Some newTable ->
      ~ someChange (tableDiff name oldTable newTable) ->
      forall td,
        In td (Diff.changedTables (diffSchemas oldSchema newSchema)) ->
        TableDiff.name td <> name).
Proof.
  split; [|split].
  - intros oldSchema newSchema td I.
    apply in_changedTables in I as (name & o & n & _ & _ & _ & C).
    now apply anyChange_true.
  - intros diff td I. simpl in I. apply filter_In in I as [_ K].
    unfold someChange.
    destruct (TableDiff.removedColumns td) eqn:E1; [|right; left; discriminate].
    destruct (TableDiff.changedColumns td) eqn:E2;
      [|right; right; left; discriminate].
    destruct (TableDiff.removedConstraints td) eqn:E3;
      [|right; right; right; right; discriminate].
    exfalso. assert (F : keepsTable td = false) by (apply keepsTable_false; tauto).
    congruence.
  - intros oldSchema newSchema name oldTable newTable W GO GN NC td I E.
    apply in_changedTables in I as (name' & o & n & I & G & -> & C).
    rewrite tableDiff_name in E. subst name'.
    apply (get_of_wf _ _ _ W) in I.
    assert (n = newTable) by congruence. assert (o = oldTable) by congruence.
    subst. apply NC. now apply anyChange_true.
Qed.

Lemma changedTables_have_change_witness :
  someChange
    (TableDiff.mk "users" [Sample.col "name" "TEXT" true None] []
       [ColumnChange.mk "email" "TEXT" "TEXT" true false None None true] [] [])
  /\ someChange
       (TableDiff.mk "users" [] []
          [ColumnChange.mk "email" "TEXT" "TEXT" true false None None true] [] [])
  /\ (forall td,
         In td (Diff.changedTables (diffSchemas Sample.schema_v1 Sample.schema_v3)) ->
         TableDiff.name td <> "orders").
Proof.
  destruct changedTables_have_change as (P1 & P2 & P3). split; [|split].
  - apply (P1 Sample.schema_v1 Sample.schema_v2). simpl. left. reflexivity.
  - apply (P2 (diffSchemas Sample.schema_v1 Sample.schema_v2)).
    simpl. left. reflexivity.
  - apply (P3 Sample.schema_v1 Sample.schema_v3 "orders" Sample.orders Sample.orders).
    + unfold JsMap.wf; simpl. repeat constructor; simpl; intuition discriminate.
    + reflexivity.
    + reflexivity.
    + unfold someChange; simpl. intuition congruence.
Defined.

(** ** The classification of a column change *)

Lemma isBreaking_iff (oldCol newCol : Column.t) :
  isBreaking oldCol newCol = true <->
  Column.type oldCol <> Column.type newCol \/
  (Column.nullable oldCol = true /\ Column.nullable newCol = false).
Proof.
  unfold isBreaking.
  rewrite orb_true_iff, andb_true_iff, !negb_true_iff, String.eqb_neq.
  tauto.
Qed.

Lemma columnDiffers_iff (oldCol newCol : Column.t) :
  columnDiffers oldCol newCol = true <->
  Column.type oldCol <> Column.type newCol \/
  Column.nullable oldCol <> Column.nullable newCol \/
  Column.defaultVal oldCol <> Column.defaultVal newCol.
Proof.
  unfold columnDiffers.
  rewrite !orb_true_iff, !negb_true_iff, String.eqb_neq, Bool.eqb_false_iff.
  rewrite <- not_true_iff_false, optStrictEq_spec. tauto.
Qed.

Lemma in_changedColumns (name : string) (oldTable newTable : Table.t)
  (cc : ColumnChange.t) :
  In cc (TableDiff.changedColumns (tableDiff name oldTable newTable)) <->
  exists colName oldCol newCol,
    In (colName, newCol) (Table.columns newTable) /\
    JsMap.get (Table.columns oldTable) colName = Some oldCol /\
    columnDiffers oldCol newCol = true /\
    cc = mkColumnChange colName oldCol newCol.
Proof.
  rewrite tableDiff_fields; simpl. rewrite in_collect. unfold changedOf. split.
  - intros ([colName newCol] & I & E); simpl in E.
    destruct (JsMap.get _ colName) as [oldCol|] eqn:G; [|discriminate].
    destruct (columnDiffers _ _) eqn:D; [|discriminate].
    injection E as <-. now exists colName, oldCol, newCol.
  - intros (colName & oldCol & newCol & I & G & D & ->).
    exists (colName, newCol). simpl. now rewrite G, D.
Qed.

(** C1.  In the diff of two schemas, every column change has
    [breaking = true] exactly when its types differ or it goes from nullable
    to not nullable; and for a column of a table in both schemas whose type,
    nullable or defaultVal differ, the diff holds the column change that
    echoes the two columns, classified by that rule. *)
Theorem column_change_breaking (oldSchema newSchema : Schema.t) :
  (forall td cc,
      In td (Diff.changedTables (diffSchemas oldSchema newSchema)) ->
      In cc (TableDiff.changedColumns td) ->
      (ColumnChange.breaking cc = true <->
       ColumnChange.oldType cc <> ColumnChange.newType cc \/
       (ColumnChange.oldNullable cc = true /\ ColumnChange.newNullable cc = false)))
  /\
  (forall name oldTable newTable colName oldCol newCol,
      JsMap.get (Schema.tables oldSchema) name = Some oldTable ->
      JsMap.get (Schema.tables newSchema) name = Some newTable ->
      JsMap.get (Table.columns oldTable) colName = Some oldCol ->
      JsMap.get (Table.columns newTable) colName = Some newCol ->
      Column.type oldCol <> Column.type newCol \/
      Column.nullable oldCol <> Column.nullable newCol \/
      Column.defaultVal oldCol <> Column.defaultVal newCol ->
      exists td cc,
        In td (Diff.changedTables (diffSchemas oldSchema newSchema)) /\
        TableDiff.name td = name /\
        In cc (TableDiff.changedColumns td) /\
        ColumnChange.name cc = colName /\
        ColumnChange.oldType cc = Column.type oldCol /\
        ColumnChange.newType cc = Column.type newCol /\
        ColumnChange.oldNullable cc = Column.nullable oldCol /\
        ColumnChange.newNullable cc = Column.nullable newCol /\
        ColumnChange.oldDefault cc = Column.defaultVal oldCol /\
        ColumnChange.newDefault cc = Column.defaultVal newCol /\
        (ColumnChange.breaking cc = true <->
         Column.type oldCol <> Column.type newCol \/
         (Column.nullable oldCol = true /\ Column.nullable newCol = false))).
Proof.
  split.
  - intros td cc IT IC.
    apply in_changedTables in IT as (name & o & n & _ & _ & -> & _).
    apply in_changedColumns in IC as (colName & oc & nc & _ & _ & _ & ->).
    simpl. apply isBreaking_iff.
  - intros name oldTable newTable colName oldCol newCol GO GN GOC GNC D.
    set (td := tableDiff name oldTable newTable).
    assert (IC : In (mkColumnChange colName oldCol newCol)
                    (TableDiff.changedColumns td)).
    { apply in_changedColumns. exists colName, oldCol, newCol.
      repeat split; auto using get_In. now apply columnDiffers_iff. }
    exists td, (mkColumnChange colName oldCol newCol).
    split; [|split; [apply tableDiff_name|]].
    + apply in_changedTables. exists name, oldTable, newTable.
      repeat split; auto using get_In.
      apply anyChange_true. right; right; left.
      intros E. rewrite E in IC. destruct IC.
    + split; [exact IC|]. simpl. repeat split; try reflexivity;
        apply isBreaking_iff.
Qed.

Lemma column_change_breaking_witness :
  (ColumnChange.breaking
     (ColumnChange.mk "email" "TEXT" "TEXT" true false None None true) = true <->
   "TEXT" <> "TEXT" \/ (true = true /\ false = false))
  /\
  exists td cc,
    In td (Diff.changedTables (diffSchemas Sample.schema_v1 Sample.schema_v2)) /\
    TableDiff.name td = "users" /\
    In cc (TableDiff.changedColumns td) /\
    ColumnChange.name cc = "email" /\
    ColumnChange.oldNullable cc = true /\
    ColumnChange.newNullable cc = false /\
    ColumnChange.breaking cc = true.
Proof.
  destruct (column_change_breaking Sample.schema_v1 Sample.schema_v2) as [P1 P2].
  split.
  - apply (P1 (TableDiff.mk "users" [Sample.col "name" "TEXT" true None] []
                 [ColumnChange.mk "email" "TEXT" "TEXT" true false None None true]
                 [] [])).
    + simpl. left. reflexivity.
    + simpl. left. reflexivity.
  - destruct (P2 "users" Sample.users_v1 Sample.users_v2 "email"
                (Sample.col "email" "TEXT" true None)
                (Sample.col "email" "TEXT" false None)
                eq_refl eq_refl eq_refl eq_refl
                (or_intror (or_introl (fun E => Bool.diff_true_false E))))
      as (td & cc & IT & N & IC & CN & _ & _ & ON & NN & _ & _ & B).
    exists td, cc. repeat split; try assumption.
    apply B. right. split; reflexivity.
Defined.

(** ** The aggregate predicate *)

Lemma ltb_length {A : Type} (l : list A) :
  Nat.ltb 0 (List.length l) = true <-> l <> [].
Proof.
  destruct l; simpl; split; intros H; try reflexivity; try discriminate.
  now elim H.
Qed.

Lemma anyBreakingTable_iff (ts : list TableDiff.t) :
  anyBreakingTable ts = true <->
  (exists t, In t ts /\ TableDiff.removedColumns t <> []) \/
  (exists t c, In t ts /\ In c (TableDiff.changedColumns t) /\
               ColumnChange.breaking c = true).
Proof.
  induction ts as [|t rest IH]; simpl.
  - split; [discriminate|]. intros [(t & [] & _)|(t & c & [] & _)].
  - destruct (Nat.ltb 0 _) eqn:L.
    + split; [|reflexivity]. intros _. left. exists t.
      split; [now left | now apply ltb_length].
    + destruct (existsb _ _) eqn:X.
      * split; [|reflexivity]. intros _. right.
        apply existsb_exists in X as (c & IC & B). exists t, c. auto.
      * rewrite IH. split.
        -- intros [(u & I & R)|(u & c & I & IC & B)];
             [left; exists u | right; exists u, c]; auto.
        -- intros [(u & [<-|I] & R)|(u & c & [<-|I] & IC & B)].
           ++ apply ltb_length in R. congruence.
           ++ left. eauto.
           ++ assert (existsb ColumnChange.breaking (TableDiff.changedColumns t)
                      = true) by (apply existsb_exists; eauto).
              congruence.
           ++ right. eauto.
Qed.

Lemma existsb_filter_negb {A : Type} (p : A -> bool) (l : list A) :
  existsb p (filter (fun x => negb (p x)) l) = false.
Proof.
  induction l as [|x rest IH]; simpl; [reflexivity|].
  destruct (p x) eqn:E; simpl; [exact IH | now rewrite E].
Qed.

(** C2.  [hasBreakingChanges] is true exactly when a table was removed, or
    a changed table has a removed column, or a changed table has a column
    change with [breaking = true]; added tables, added columns, added or
    removed constraints and column changes that are not breaking never make
    it true. *)
Theorem hasBreakingChanges_iff (diff : Diff.t) :
  (hasBreakingChanges diff = true <->
   Diff.removedTables diff <> [] \/
   (exists t, In t (Diff.changedTables diff) /\ TableDiff.removedColumns t <> []) \/
   (exists t c, In t (Diff.changedTables diff) /\
                In c (TableDiff.changedColumns t) /\
                ColumnChange.breaking c = true))
  /\ hasBreakingChanges (nonBreakingPart diff) = false.
Proof.
  split.
  - unfold hasBreakingChanges.
    destruct (Nat.ltb 0 _) eqn:L.
    + split; [|reflexivity]. intros _. left. now apply ltb_length.
    + rewrite anyBreakingTable_iff. split; [tauto|].
      intros [R|H]; [|exact H]. apply ltb_length in R. congruence.
  - unfold hasBreakingChanges; simpl.
    induction (Diff.changedTables diff) as [|t rest IH]; simpl; [reflexivity|].
    now rewrite existsb_filter_negb.
Qed.

(** ** The breaking-only filter *)

Lemma keepsTable_breakingPart (t : TableDiff.t) :
  keepsTable (breakingPart t) =
  match TableDiff.removedColumns t,
        filter ColumnChange.breaking (TableDiff.changedColumns t),
        TableDiff.removedConstraints t with
  | [], [], [] => false
  | _, _, _ => true
  end.
Proof.
  unfold keepsTable; simpl.
  destruct (TableDiff.removedColumns t); [|reflexivity].
  destruct (filter _ _); [|reflexivity].
  now destruct (TableDiff.removedConstraints t).
Qed.

Lemma retainedTables_code (ts : list TableDiff.t) :
  filter keepsTable (map breakingPart ts) = retainedTables ts.
Proof.
  induction ts as [|t rest IH]; [reflexivity|].
  cbn [map filter retainedTables]. rewrite keepsTable_breakingPart, IH.
  unfold breakingPart.
  destruct (TableDiff.removedColumns t);
    destruct (filter ColumnChange.breaking (TableDiff.changedColumns t));
    destruct (TableDiff.removedConstraints t); reflexivity.
Qed.

(** C3.  [filterBreakingOnly] returns the diff the specification words:
    no added table, the removed tables as they were, and the changed tables
    restricted as [retainedTables] says. *)
Theorem filterBreakingOnly_spec (diff : Diff.t) :
  filterBreakingOnly diff = breakingOnlySpec diff /\
  Diff.addedTables (filterBreakingOnly diff) = [] /\
  Diff.removedTables (filterBreakingOnly diff) = Diff.removedTables diff.
Proof.
  split; [|split; reflexivity].
  unfold filterBreakingOnly, breakingOnlySpec.
  now rewrite retainedTables_code.
Qed.

Lemma existsb_filter_self {A : Type} (p : A -> bool) (l : list A) :
  existsb p (filter p l) = existsb p l.
Proof.
  induction l as [|x rest IH]; simpl; [reflexivity|].
  destruct (p x) eqn:E; simpl; [now rewrite E | exact IH].
Qed.

Lemma existsb_filter_nil {A : Type} (p : A -> bool) (l : list A) :
  filter p l = [] -> existsb p l = false.
Proof. intros E. now rewrite <- existsb_filter_self, E. Qed.

(** C10.  Filtering a diff to its breaking changes does not change what
    [hasBreakingChanges] answers. *)
Theorem hasBreakingChanges_filter (diff : Diff.t) :
  hasBreakingChanges (filterBreakingOnly diff) = hasBreakingChanges diff.
Proof.
  unfold hasBreakingChanges; simpl.
  destruct (Nat.ltb 0 _); [reflexivity|].
  induction (Diff.changedTables diff) as [|t rest IH]; [reflexivity|].
  cbn [map filter anyBreakingTable].
  destruct (keepsTable (breakingPart t)) eqn:K.
  - cbn [anyBreakingTable breakingPart TableDiff.removedColumns
         TableDiff.changedColumns].
    now rewrite existsb_filter_self, IH.
  - apply keepsTable_false in K as (R & C & _); simpl in R, C.
    rewrite R, (existsb_filter_nil _ _ C). simpl. exact IH.
Qed.

(** ** The identity of a constraint *)

Lemma constraintKey_of_pair (c1 c2 : Constraint.t) :
  Constraint.type c1 = Constraint.type c2 ->
  join "," (Constraint.columns c1) = join "," (Constraint.columns c2) ->
  constraintKey c1 = constraintKey c2.
Proof. unfold constraintKey. now intros -> ->. Qed.

(** Constraints that agree pairwise on type and columns, whatever their
    names and references, leave nothing added and nothing removed. *)
Lemma constraintLoop_renamed (cs1 cs2 : list Constraint.t) :
  Forall2 (fun c1 c2 => Constraint.type c1 = Constraint.type c2 /\
                        Constraint.columns c1 = Constraint.columns c2) cs1 cs2 ->
  constraintLoop cs1 cs2 = [] /\ constraintLoop cs2 cs1 = [].
Proof.
  intros F.
  assert (K : map constraintKey cs1 = map constraintKey cs2).
  { induction F as [|c1 c2 r1 r2 [T C] _ IH]; simpl; [reflexivity|].
    rewrite IH. f_equal. apply constraintKey_of_pair; congruence. }
  rewrite !constraintLoop_collect. split; apply collect_nil; intros con I;
    unfold unmatched;
    (replace (Set_has _ _) with true; [reflexivity|]);
    symmetry; apply Set_has_In.
  - rewrite <- K. now apply in_map.
  - rewrite K. now apply in_map.
Qed.

(** Where no type holds a colon, equal keys mean equal types and equal
    joined columns. *)
Lemma append_colon_inj (a b x y : string) :
  noColon a = true -> noColon b = true ->
  (a ++ ":" ++ x)%string = (b ++ ":" ++ y)%string -> a = b /\ x = y.
Proof.
  revert b. induction a as [|c a IH]; intros [|d b]; simpl.
  - intros _ _ E. injection E as ->. now split.
  - intros _ N E. injection E as <- _. discriminate N.
  - intros N _ E. injection E as -> _. discriminate N.
  - intros Na Nb E. injection E as -> E.
    apply andb_true_iff in Na as [_ Na]. apply andb_true_iff in Nb as [_ Nb].
    destruct (IH b Na Nb E) as [-> ->]. now split.
Qed.

Lemma constraintKey_inj (c1 c2 : Constraint.t) :
  noColon (Constraint.type c1) = true -> noColon (Constraint.type c2) = true ->
  constraintKey c1 = constraintKey c2 ->
  Constraint.type c1 = Constraint.type c2 /\
  join "," (Constraint.columns c1) = join "," (Constraint.columns c2).
Proof. unfold constraintKey. apply append_colon_inj. Qed.

(** C6.  Two constraints whose types differ and whose joined columns differ
    have the same key when the text [type:columns] coincides, and a table
    that swaps one for the other is reported unchanged.  The claim asks for
    an added and a removed constraint here. *)
Theorem constraint_key_collision :
  Constraint.type KeySample.byColumn <> Constraint.type KeySample.byType /\
  join "," (Constraint.columns KeySample.byColumn)
    <> join "," (Constraint.columns KeySample.byType) /\
  constraintKey KeySample.byColumn = constraintKey KeySample.byType /\
  diffSchemas (KeySample.accounts KeySample.byColumn)
              (KeySample.accounts KeySample.byType) = Diff.mk [] [] [].
Proof.
  repeat split; try reflexivity; simpl; discriminate.
Qed.

(** ** The SQL parser on column clauses *)

Example parseSQL_plain_types :
  SQL.parseSQL "CREATE TABLE Users (Id INT, email varchar(255));" =
  Schema.mk
    [("users",
      Table.mk "users"
        [("id", Sample.col "id" "INT" true None);
         ("email", Sample.col "email" "VARCHAR(255)" true None)]
        [])].
Proof. vm_compute. reflexivity. Qed.

(** C4.  The type of a parsed column is the whole run of word characters,
    parentheses and spaces after the name: the modifiers that follow the type
    stay in it.  [id INTEGER PRIMARY KEY] gives the type
    [INTEGER PRIMARY KEY] and [age INT DEFAULT 0] the type [INT DEFAULT 0],
    where the claim says [INTEGER] and [INT]. *)
Theorem parseSQL_type_keeps_modifiers :
  SQL.parseSQL "CREATE TABLE t (id INTEGER PRIMARY KEY, age INT DEFAULT 0);" =
  Schema.mk
    [("t",
      Table.mk "t"
        [("id", Column.mk "id" "INTEGER PRIMARY KEY" false None true false);
         ("age", Column.mk "age" "INT DEFAULT 0" true (Some "0") false false)]
        [])].
Proof. vm_compute. reflexivity. Qed.

(** ** The JSON schema parser on [null] *)

Section JSONFacts.

Import JSONSchema.

Variable number : Type.
Variable Number_toString : number -> string.
Variable Number_isZero : number -> bool.

Let parse := parseJSONSchema number Number_toString Number_isZero.

Lemma parseJSONSchema_malformed : parse None = Throw SyntaxError.
Proof. reflexivity. Qed.

Lemma parseJSONSchema_empty_object : parse (Some (JObject [])) = Return [].
Proof. reflexivity. Qed.

Lemma bind_noSyntaxError {A B : Type} (m : outcome A) (f : A -> outcome B) :
  noSyntaxError m -> (forall a, noSyntaxError (f a)) ->
  noSyntaxError (bind m f).
Proof.
  unfold noSyntaxError. destruct m as [a|e]; simpl; intros Hm Hf.
  - apply Hf.
  - intros E. apply Hm. congruence.
Qed.

Lemma foldM_noSyntaxError {A S : Type} (step : S -> A -> outcome S)
  (l : list A) :
  (forall st x, noSyntaxError (step st x)) ->
  forall st, noSyntaxError (foldM step l st).
Proof.
  intros H. induction l as [|x rest IH]; intros st; simpl.
  - discriminate.
  - apply bind_noSyntaxError; auto.
Qed.

Lemma getProp_noSyntaxError (v : value number) (key : string) :
  noSyntaxError (getProp number v key).
Proof. destruct v; discriminate. Qed.

Lemma entries_noSyntaxError (v : value number) :
  noSyntaxError (entries number v).
Proof. destruct v; discriminate. Qed.

Lemma String_noSyntaxError :
  forall v : value number, noSyntaxError (String_ number Number_toString v).
Proof.
  fix IH 1. intros v.
  destruct v as [| [|] | n | s | items | fields]; simpl; try discriminate.
  - revert items. fix IHitems 1. intros [|x rest]; [discriminate|].
    apply bind_noSyntaxError.
    + pose proof (IH x) as Hx. destruct x; try exact Hx. discriminate.
    + intros s. pose proof (IHitems rest) as Hrest.
      destruct rest as [|y rest']; [discriminate|].
      apply bind_noSyntaxError; [exact Hrest | discriminate].
  - destruct (hasOwn number "toString" fields); discriminate.
Qed.

Create HintDb json.
#[local] Hint Resolve bind_noSyntaxError foldM_noSyntaxError getProp_noSyntaxError
  entries_noSyntaxError String_noSyntaxError : json.

Lemma columnOf_noSyntaxError (colName : string) (col : value number) :
  noSyntaxError (columnOf number Number_toString colName col).
Proof.
  unfold columnOf.
  repeat (apply bind_noSyntaxError; [auto with json | intros ?]);
    try discriminate.
  destruct a1 as [[]|]; try discriminate;
    apply bind_noSyntaxError; auto with json; discriminate.
Qed.

Lemma stringOrEmpty_noSyntaxError (v : option (value number)) :
  noSyntaxError (stringOrEmpty number Number_toString Number_isZero v).
Proof.
  unfold stringOrEmpty. destruct v as [x|]; [|discriminate].
  destruct (truthyValue _ _ _); auto with json. discriminate.
Qed.

Lemma constraintOf_noSyntaxError (c : value number) :
  noSyntaxError (constraintOf number Number_toString Number_isZero c).
Proof.
  unfold constraintOf.
  repeat (apply bind_noSyntaxError;
          [auto using stringOrEmpty_noSyntaxError with json | intros ?]);
    try discriminate.
  destruct a4 as [r|]; [|discriminate].
  destruct (truthyValue _ _ _); [|discriminate].
  apply bind_noSyntaxError; auto with json. discriminate.
Qed.

Lemma tableStep_noSyntaxError tables (entry : string * value number) :
  noSyntaxError
    (JSONSchema.tableStep number Number_toString Number_isZero tables entry).
Proof.
  destruct entry as [tableName def]. unfold JSONSchema.tableStep.
  apply bind_noSyntaxError; [auto with json | intros cols].
  apply bind_noSyntaxError.
  { destruct (_ && _); [|discriminate]. destruct cols as [cs|]; [|discriminate].
    apply bind_noSyntaxError; [auto with json | intros es].
    apply foldM_noSyntaxError. intros st x. unfold JSONSchema.columnStep.
    apply bind_noSyntaxError; [apply columnOf_noSyntaxError | discriminate]. }
  intros columns.
  apply bind_noSyntaxError; [auto with json | intros cons].
  apply bind_noSyntaxError; [|discriminate].
  destruct cons as [[]|]; try discriminate.
  apply foldM_noSyntaxError. intros st x. unfold JSONSchema.constraintStep.
  apply bind_noSyntaxError; [apply constraintOf_noSyntaxError | discriminate].
Qed.

(** A [SyntaxError] is thrown exactly when the text is not JSON. *)
Lemma parseJSONSchema_SyntaxError (parsed : option (value number)) :
  parse parsed = Throw SyntaxError <-> parsed = None.
Proof.
  split; [|now intros ->].
  destruct parsed as [json|]; [|reflexivity].
  intros E. exfalso. revert E. unfold parse; simpl. unfold schemaOf.
  apply bind_noSyntaxError; [auto with json | intros tables].
  apply bind_noSyntaxError; [auto with json | intros es].
  apply foldM_noSyntaxError. apply tableStep_noSyntaxError.
Qed.

(** C5.  On the well-formed texts [null], [{"users": null}],
    [{"tables": null}] and on a column or constraint that is [null], the
    parser throws a [TypeError] where the claim says a schema is
    returned. *)
Theorem parseJSONSchema_null_throws :
  parse (Some JNull) = Throw TypeError /\
  parse (Some (JObject [("users", JNull)])) = Throw TypeError /\
  parse (Some (JObject [("tables", JNull)])) = Throw TypeError /\
  parse (Some (JObject [("t", JObject [("columns", JObject [("c", JNull)])])]))
    = Throw TypeError /\
  parse (Some (JObject [("t", JObject [("constraints", JArray [JNull])])]))
    = Throw TypeError.
Proof. repeat split; reflexivity. Qed.

End JSONFacts.

(** ** More about the diff engine *)

Lemma in_lacking (other : JsMap.t Table.t) (names : list string) (n : string) :
  In n (collect (lacking other) names) <->
  In n names /\ JsMap.has other n = false.
Proof.
  rewrite in_collect. unfold lacking. split.
  - intros (x & I & E). destruct (JsMap.has other x) eqn:H; simpl in E;
      [discriminate|]. injection E as ->. now split.
  - intros [I H]. exists n. now rewrite H.
Qed.

(** X1.  A table is reported added exactly when it is a key of the new
    schema that the old one lacks, and removed exactly when it is a key of
    the old schema that the new one lacks. *)
Theorem added_removed_membership (oldSchema newSchema : Schema.t) (n : string) :
  (In n (Diff.addedTables (diffSchemas oldSchema newSchema)) <->
   In n (JsMap.keys (Schema.tables newSchema)) /\
   JsMap.has (Schema.tables oldSchema) n = false)
  /\
  (In n (Diff.removedTables (diffSchemas oldSchema newSchema)) <->
   In n (JsMap.keys (Schema.tables oldSchema)) /\
   JsMap.has (Schema.tables newSchema) n = false).
Proof.
  rewrite addedTables_collect, removedTables_collect.
  split; apply in_lacking.
Qed.

Lemma collect_all {A : Type} (f : A -> option A) (l : list A) :
  (forall x, In x l -> f x = Some x) -> collect f l = l.
Proof.
  induction l as [|x rest IH]; intros E; simpl; [reflexivity|].
  rewrite (E x (or_introl eq_refl)). f_equal. apply IH.
  intros y Hy. apply E. now right.
Qed.

(** X2.  Against an empty schema every table is added, respectively
    removed, in the order of its schema, and no table is changed. *)
Theorem diffSchemas_empty_side (S : Schema.t) :
  diffSchemas (Schema.mk []) S = Diff.mk (JsMap.keys (Schema.tables S)) [] [] /\
  diffSchemas S (Schema.mk []) = Diff.mk [] (JsMap.keys (Schema.tables S)) [].
Proof.
  split.
  - pose proof (addedTables_collect (Schema.mk []) S) as HA.
    pose proof (changedTables_collect (Schema.mk []) S) as HC.
    destruct (diffSchemas (Schema.mk []) S) as [a r c] eqn:D.
    assert (r = []) by (now injection D as _ <- _).
    simpl in HA, HC. subst. f_equal.
    + apply collect_all. intros x _. reflexivity.
    + apply collect_nil. intros [name t] _. reflexivity.
  - pose proof (removedTables_collect S (Schema.mk [])) as HR.
    destruct (diffSchemas S (Schema.mk [])) as [a r c] eqn:D.
    assert (a = [] /\ c = []) as [-> ->] by (injection D as <- _ <-; now split).
    simpl in HR. subst. f_equal.
    apply collect_all. intros x _. reflexivity.
Qed.

Lemma has_true_iff {V : Type} (m : JsMap.t V) (k : string) :
  JsMap.has m k = true <-> exists v, JsMap.get m k = Some v.
Proof.
  unfold JsMap.has. destruct (JsMap.get m k) as [v|].
  - split; [intros _; now exists v | reflexivity].
  - split; [discriminate | intros (v & E); discriminate E].
Qed.

Lemma has_false_iff {V : Type} (m : JsMap.t V) (k : string) :
  JsMap.has m k = false <-> JsMap.get m k = None.
Proof.
  unfold JsMap.has. destruct (JsMap.get m k) as [v|]; split;
    intros H; try reflexivity; discriminate H.
Qed.

Lemma get_key_in {V : Type} (m : JsMap.t V) (k : string) (v : V) :
  JsMap.get m k = Some v -> In k (JsMap.keys m).
Proof.
  intros G. apply get_In in G. unfold JsMap.keys.
  apply in_map_iff. now exists (k, v).
Qed.

(** X3.  In the diff of one table, the added columns are the columns of the
    new table whose name the old table lacks, and the removed columns are
    the columns of the old table whose name the new table lacks. *)
Theorem added_removed_columns (name : string) (oldTable newTable : Table.t)
  (c : Column.t) :
  (In c (TableDiff.addedColumns (tableDiff name oldTable newTable)) <->
   exists k, In (k, c) (Table.columns newTable) /\
             JsMap.get (Table.columns oldTable) k = None)
  /\
  (In c (TableDiff.removedColumns (tableDiff name oldTable newTable)) <->
   exists k, JsMap.get (Table.columns oldTable) k = Some c /\
             JsMap.get (Table.columns newTable) k = None).
Proof.
  rewrite tableDiff_fields; simpl. rewrite !in_collect. split; split.
  - intros ([k c'] & I & E). unfold addedOf in E; simpl in E.
    destruct (JsMap.get _ k) eqn:G; [discriminate|]. injection E as ->.
    now exists k.
  - intros (k & I & G). exists (k, c). split; [assumption|].
    unfold addedOf; simpl. now rewrite G.
  - intros (k & I & E). unfold removedOf in E.
    destruct (JsMap.has _ k) eqn:H; simpl in E; [discriminate|].
    exists k. split; [assumption | now apply has_false_iff].
  - intros (k & G & N). exists k. split; [now apply (get_key_in _ _ c)|].
    unfold removedOf. apply has_false_iff in N. now rewrite N.
Qed.

(** X4.  A table listed as changed is a key of both schemas, so it is
    listed neither as added nor as removed. *)
Theorem changed_table_in_both (oldSchema newSchema : Schema.t) (td : TableDiff.t) :
  In td (Diff.changedTables (diffSchemas oldSchema newSchema)) ->
  JsMap.has (Schema.tables oldSchema) (TableDiff.name td) = true /\
  JsMap.has (Schema.tables newSchema) (TableDiff.name td) = true /\
  ~ In (TableDiff.name td) (Diff.addedTables (diffSchemas oldSchema newSchema)) /\
  ~ In (TableDiff.name td) (Diff.removedTables (diffSchemas oldSchema newSchema)).
Proof.
  intros I. apply in_changedTables in I as (name & o & n & I & G & -> & _).
  rewrite tableDiff_name.
  assert (HO : JsMap.has (Schema.tables oldSchema) name = true)
    by (apply has_true_iff; eauto).
  assert (HN : JsMap.has (Schema.tables newSchema) name = true)
    by (now apply (has_of_entry _ _ n)).
  repeat split; try assumption.
  - rewrite addedTables_collect, in_lacking. intros [_ F]. congruence.
  - rewrite removedTables_collect, in_lacking. intros [_ F]. congruence.
Qed.

Lemma changed_table_in_both_witness :
  JsMap.has (Schema.tables Sample.schema_v1) "users" = true /\
  JsMap.has (Schema.tables Sample.schema_v2) "users" = true /\
  ~ In "users" (Diff.addedTables (diffSchemas Sample.schema_v1 Sample.schema_v2)) /\
  ~ In "users" (Diff.removedTables (diffSchemas Sample.schema_v1 Sample.schema_v2)).
Proof.
  apply (changed_table_in_both Sample.schema_v1 Sample.schema_v2
           (TableDiff.mk "users" [Sample.col "name" "TEXT" true None] []
              [ColumnChange.mk "email" "TEXT" "TEXT" true false None None true]
              [] [])).
  simpl. left. reflexivity.
Defined.

(** X5.  The diff of two schemas is breaking exactly when the new schema
    lacks a table of the old one, or a table in both lost a column, or a
    column in both changed its type or went from nullable to not nullable.
    Constraints play no part. *)
Theorem diff_breaking_iff (oldSchema newSchema : Schema.t) :
  hasBreakingChanges (diffSchemas oldSchema newSchema) = true <->
  (exists n, In n (JsMap.keys (Schema.tables oldSchema)) /\
             JsMap.has (Schema.tables newSchema) n = false)
  \/
  (exists n oldTable newTable,
      JsMap.get (Schema.tables oldSchema) n = Some oldTable /\
      In (n, newTable) (Schema.tables newSchema) /\
      ((exists k, In k (JsMap.keys (Table.columns oldTable)) /\
                  JsMap.has (Table.columns newTable) k = false)
       \/
       (exists k oldCol newCol,
           JsMap.get (Table.columns oldTable) k = Some oldCol /\
           In (k, newCol) (Table.columns newTable) /\
           (Column.type oldCol <> Column.type newCol \/
            (Column.nullable oldCol = true /\ Column.nullable newCol = false))))).
Proof.
  unfold hasBreakingChanges.
  destruct (Nat.ltb 0 _) eqn:L.
  - split; [|reflexivity]. intros _. left. apply ltb_length in L.
    destruct (Diff.removedTables _) as [|n r] eqn:E; [now elim L|].
    exists n. apply in_lacking. rewrite <- removedTables_collect, E. now left.
  - assert (NR : forall n, ~ (In n (JsMap.keys (Schema.tables oldSchema)) /\
                            JsMap.has (Schema.tables newSchema) n = false)).
    { intros n H. apply in_lacking in H. rewrite <- removedTables_collect in H.
      destruct (Diff.removedTables _); [destruct H | discriminate L]. }
    rewrite anyBreakingTable_iff. split.
    + intros [(t & I & R)|(t & c & I & IC & B)]; right;
        apply in_changedTables in I as (n & o & nt & I & G & -> & _);
        exists n, o, nt; (split; [assumption|]); (split; [assumption|]).
      * left. rewrite tableDiff_fields in R; simpl in R.
        destruct (collect _ _) as [|x r] eqn:E; [now elim R|].
        assert (IX : In x (collect (removedOf o nt) (JsMap.keys (Table.columns o))))
          by (rewrite E; now left).
        apply in_collect in IX as (k & IK & EK). exists k. split; [assumption|].
        unfold removedOf in EK. destruct (JsMap.has _ k); [discriminate|reflexivity].
      * right. apply in_changedColumns in IC as (k & oc & nc & IK & GK & _ & ->).
        exists k, oc, nc. repeat split; try assumption.
        now apply isBreaking_iff.
    + intros [(n & H)|(n & o & nt & G & I & H)]; [now elim (NR n)|].
      assert (T : forall td, td = tableDiff n o nt -> anyChange td = true ->
                             In td (Diff.changedTables (diffSchemas oldSchema newSchema))).
      { intros td -> A. apply in_changedTables. now exists n, o, nt. }
      destruct H as [(k & IK & HK)|(k & oc & nc & GK & IK & B)].
      * destruct (get_of_key _ _ IK) as (c & GC).
        assert (IC : In c (TableDiff.removedColumns (tableDiff n o nt))).
        { rewrite tableDiff_fields; simpl. apply in_collect. exists k.
          split; [assumption|]. unfold removedOf. now rewrite HK. }
        left. exists (tableDiff n o nt). split.
        -- apply T; [reflexivity|]. apply anyChange_true. right; left.
           intros E. rewrite E in IC. destruct IC.
        -- intros E. rewrite E in IC. destruct IC.
      * assert (D : columnDiffers oc nc = true).
        { apply columnDiffers_iff. destruct B as [B|[B1 B2]]; [now left|].
          right; left. congruence. }
        assert (IC : In (mkColumnChange k oc nc)
                        (TableDiff.changedColumns (tableDiff n o nt))).
        { apply in_changedColumns. now exists k, oc, nc. }
        right. exists (tableDiff n o nt), (mkColumnChange k oc nc).
        split; [|split; [assumption | now apply isBreaking_iff]].
        apply T; [reflexivity|]. apply anyChange_true. right; right; left.
        intros E. rewrite E in IC. destruct IC.
Qed.

Lemma filter_twice {A : Type} (p : A -> bool) (l : list A) :
  filter p (filter p l) = filter p l.
Proof.
  induction l as [|x rest IH]; simpl; [reflexivity|].
  destruct (p x) eqn:E; simpl; [rewrite E; now f_equal | exact IH].
Qed.

Lemma breakingPart_twice (t : TableDiff.t) :
  breakingPart (breakingPart t) = breakingPart t.
Proof. unfold breakingPart; simpl. now rewrite filter_twice. Qed.

(** X6.  Filtering to the breaking changes a second time changes nothing. *)
Theorem filterBreakingOnly_idempotent (diff : Diff.t) :
  filterBreakingOnly (filterBreakingOnly diff) = filterBreakingOnly diff.
Proof.
  unfold filterBreakingOnly; simpl. f_equal.
  induction (Diff.changedTables diff) as [|t rest IH]; [reflexivity|].
  cbn [map filter]. destruct (keepsTable (breakingPart t)) eqn:K.
  - cbn [map filter]. rewrite breakingPart_twice, K. now f_equal.
  - exact IH.
Qed.

Lemma anyBreakingTable_false (ts : list TableDiff.t) :
  anyBreakingTable ts = false ->
  forall t, In t ts ->
    TableDiff.removedColumns t = [] /\
    existsb ColumnChange.breaking (TableDiff.changedColumns t) = false.
Proof.
  induction ts as [|u rest IH]; simpl; [intros _ t []|].
  destruct (TableDiff.removedColumns u) eqn:R; simpl; [|discriminate].
  destruct (existsb _ _) eqn:X; [discriminate|].
  intros H t [<-|I]; [now rewrite R | now apply IH].
Qed.

Lemma filter_nil_of_existsb {A : Type} (p : A -> bool) (l : list A) :
  existsb p l = false -> filter p l = [].
Proof.
  induction l as [|x rest IH]; simpl; [reflexivity|].
  destruct (p x); simpl; [discriminate | exact IH].
Qed.

(** X7.  When a diff is not breaking, the tables that [filterBreakingOnly]
    still lists only lost constraints: each of them has no
    removed column, no column change, and a removed constraint. *)
Theorem filter_keeps_dropped_constraints (diff : Diff.t) (t : TableDiff.t) :
  hasBreakingChanges diff = false ->
  In t (Diff.changedTables (filterBreakingOnly diff)) ->
  TableDiff.removedColumns t = [] /\ TableDiff.changedColumns t = [] /\
  TableDiff.removedConstraints t <> [].
Proof.
  unfold hasBreakingChanges. destruct (Nat.ltb 0 _); [discriminate|].
  intros NB I. simpl in I. apply filter_In in I as [I K].
  apply in_map_iff in I as (t0 & <- & I0).
  destruct (anyBreakingTable_false _ NB t0 I0) as [R X].
  apply filter_nil_of_existsb in X.
  assert (RC : TableDiff.removedColumns (breakingPart t0) = []) by exact R.
  assert (CC : TableDiff.changedColumns (breakingPart t0) = []) by exact X.
  repeat split; try assumption.
  intros E. assert (F : keepsTable (breakingPart t0) = false)
    by (apply keepsTable_false; tauto).
  congruence.
Qed.

Lemma filter_keeps_dropped_constraints_witness :
  TableDiff.removedColumns
    (TableDiff.mk "accounts" [] [] [] [] [KeySample.byType]) = [] /\
  TableDiff.changedColumns
    (TableDiff.mk "accounts" [] [] [] [] [KeySample.byType]) = [] /\
  TableDiff.removedConstraints
    (TableDiff.mk "accounts" [] [] [] [] [KeySample.byType]) <> [].
Proof.
  apply (filter_keeps_dropped_constraints
           (Diff.mk ["t"] []
              [TableDiff.mk "accounts" [Sample.col "x" "INT" true None] [] [] []
                 [KeySample.byType]])).
  - reflexivity.
  - simpl. left. reflexivity.
Defined.

(** X8.  A column change is reported only for a real difference: in every
    column change of a diff the two types, the two nullable flags or the two
    defaults differ. *)
Theorem column_change_is_real (oldSchema newSchema : Schema.t)
  (td : TableDiff.t) (cc : ColumnChange.t) :
  In td (Diff.changedTables (diffSchemas oldSchema newSchema)) ->
  In cc (TableDiff.changedColumns td) ->
  ColumnChange.oldType cc <> ColumnChange.newType cc \/
  ColumnChange.oldNullable cc <> ColumnChange.newNullable cc \/
  ColumnChange.oldDefault cc <> ColumnChange.newDefault cc.
Proof.
  intros IT IC.
  apply in_changedTables in IT as (name & o & n & _ & _ & -> & _).
  apply in_changedColumns in IC as (k & oc & nc & _ & _ & D & ->).
  simpl. now apply columnDiffers_iff.
Qed.

Lemma column_change_is_real_witness :
  "TEXT" <> "TEXT" \/ true <> false \/ @None string <> None.
Proof.
  apply (column_change_is_real Sample.schema_v1 Sample.schema_v2
           (TableDiff.mk "users" [Sample.col "name" "TEXT" true None] []
              [ColumnChange.mk "email" "TEXT" "TEXT" true false None None true]
              [] [])
           (ColumnChange.mk "email" "TEXT" "TEXT" true false None None true)).
  - simpl. left. reflexivity.
  - simpl. left. reflexivity.
Defined.

Lemma collect_map {A B C : Type} (g : A -> B) (f : B -> option C) (l : list A) :
  collect f (map g l) = collect (fun x => f (g x)) l.
Proof.
  induction l as [|x rest IH]; simpl; [reflexivity|]. now rewrite IH.
Qed.

Lemma collect_same {A B : Type} (f g : A -> option B) (l : list A) :
  (forall x, In x l -> f x = g x) -> collect f l = collect g l.
Proof.
  induction l as [|x rest IH]; intros E; simpl; [reflexivity|].
  rewrite (E x (or_introl eq_refl)), IH; [reflexivity|].
  intros y Hy. apply E. now right.
Qed.

(** X9.  Swapping the two tables swaps added and removed, for columns and
    for constraints alike, as equal sequences. *)
Theorem tableDiff_swap (n m : string) (oldTable newTable : Table.t) :
  JsMap.wf (Table.columns newTable) ->
  TableDiff.addedColumns (tableDiff n oldTable newTable) =
  TableDiff.removedColumns (tableDiff m newTable oldTable) /\
  TableDiff.addedConstraints (tableDiff n oldTable newTable) =
  TableDiff.removedConstraints (tableDiff m newTable oldTable).
Proof.
  intros W. rewrite !tableDiff_fields; simpl. split; [|reflexivity].
  unfold JsMap.keys. rewrite collect_map. apply collect_same.
  intros [k c] I. unfold addedOf, removedOf, JsMap.has; simpl.
  rewrite (get_of_wf _ _ _ W I).
  now destruct (JsMap.get (Table.columns oldTable) k).
Qed.

Lemma tableDiff_swap_witness :
  TableDiff.addedColumns (tableDiff "users" Sample.users_v1 Sample.users_v2) =
  TableDiff.removedColumns (tableDiff "users" Sample.users_v2 Sample.users_v1) /\
  TableDiff.addedConstraints (tableDiff "users" Sample.users_v1 Sample.users_v2) =
  TableDiff.removedConstraints (tableDiff "users" Sample.users_v2 Sample.users_v1).
Proof.
  apply (tableDiff_swap "users" "users" Sample.users_v1 Sample.users_v2).
  unfold JsMap.wf; simpl. repeat constructor; simpl; intuition discriminate.
Defined.

(** ** [Map.set] and [Map.get] *)

Section SetFacts.

Context {V : Type}.

Lemma get_set_same (m : JsMap.t V) (k : string) (v : V) :
JsMap.get (JsMap.set m k v) k = Some v.
Proof.
induction m as [|[k' v'] rest IH]; simpl.
- now rewrite String.eqb_refl.
- destruct (String.eqb k' k) eqn:E; simpl; rewrite E; [reflexivity | exact IH].
Qed.

Lemma get_set_other (m : JsMap.t V) (k k' : string) (v : V) :
k <> k' -> JsMap.get (JsMap.set m k v) k' = JsMap.get m k'.
Proof.
intros N. induction m as [|[j w] rest IH]; simpl.
- apply String.eqb_neq in N. now rewrite N.
- destruct (String.eqb_spec j k) as [->|NK]; simpl.
  + apply String.eqb_neq in N. now rewrite N.
  + now rewrite IH.
Qed.

Lemma keys_set (m : JsMap.t V) (k : string) (v : V) :
JsMap.keys (JsMap.set m k v) =
if JsMap.has m k then JsMap.keys m else JsMap.keys m ++ [k].
Proof.
unfold JsMap.has, JsMap.keys.
induction m as [|[j w] rest IH]; simpl; [reflexivity|].
destruct (String.eqb j k) eqn:E; simpl; [reflexivity|].
rewrite IH. now destruct (JsMap.get rest k).
Qed.

Lemma set_wf (m : JsMap.t V) (k : string) (v : V) :
JsMap.wf m -> JsMap.wf (JsMap.set m k v).
Proof.
unfold JsMap.wf. intros W. rewrite keys_set.
destruct (JsMap.has m k) eqn:H; [assumption|].
apply NoDup_app.
- assumption.
- constructor; [intros [] | constructor].
- intros x I [E|[]]. subst x. rewrite (has_of_key m k I) in H. discriminate.
Qed.

Lemma in_set (m : JsMap.t V) (k j : string) (v w : V) :
In (j, w) (JsMap.set m k v) -> (j = k /\ w = v) \/ In (j, w) m.
Proof.
induction m as [|[k' v'] rest IH]; simpl.
- intros [E|[]]. injection E as <- <-. now left.
- destruct (String.eqb_spec k' k) as [->|N]; simpl.
  + intros [E|I]; [injection E as <- <-; now left | right; now right].
  + intros [E|I]; [right; now left|].
    destruct (IH I) as [H|H]; [now left | right; now right].
Qed.

End SetFacts.

(** ** Lower and upper case *)

Lemma downcase_twice (c : ascii) : downcase (downcase c) = downcase c.
Proof. destruct c as [[] [] [] [] [] [] [] []]; reflexivity. Qed.

Lemma upcase_twice (c : ascii) : upcase (upcase c) = upcase c.
Proof. destruct c as [[] [] [] [] [] [] [] []]; reflexivity. Qed.

Lemma toLowerCase_twice (s : string) : toLowerCase (toLowerCase s) = toLowerCase s.
Proof.
  induction s as [|c rest IH]; simpl; [reflexivity|].
  unfold toLowerCase in *. simpl. now rewrite downcase_twice, IH.
Qed.

Lemma toUpperCase_twice (s : string) : toUpperCase (toUpperCase s) = toUpperCase s.
Proof.
  induction s as [|c rest IH]; simpl; [reflexivity|].
  unfold toUpperCase in *. simpl. now rewrite upcase_twice, IH.
Qed.

(** ** The SQL parser: invariants of the schema it returns *)

Lemma fold_left_keeps {A S : Type} (Inv : S -> Prop) (step : S -> A -> S)
  (l : list A) :
  (forall st x, Inv st -> Inv (step st x)) ->
  forall st, Inv st -> Inv (fold_left step l st).
Proof.
  intros H. induction l as [|x rest IH]; intros st I; simpl; auto.
Qed.

Lemma columnOfLine_column (line upper : string) (col : Column.t) :
  SQL.columnOfLine line upper = Some col ->
  SQLInv.column (Column.name col, col).
Proof.
  unfold SQL.columnOfLine.
  destruct (Regex.match_ line SQL.columnDef) as [m|]; [|discriminate].
  intros [= <-]. simpl. repeat split.
  - apply toLowerCase_twice.
  - apply toUpperCase_twice.
  - intros ->. now rewrite andb_false_r.
Qed.

Lemma columnList_lower (inner x : string) :
  In x (SQL.columnList inner) -> toLowerCase x = x.
Proof.
  unfold SQL.columnList. intros I. apply in_map_iff in I as (y & <- & _).
  apply toLowerCase_twice.
Qed.

Lemma state_push (cols : JsMap.t Column.t) (cons : list Constraint.t)
  (c : Constraint.t) :
  SQLInv.state (cols, cons) -> SQLInv.constraint c ->
  SQLInv.state (cols, push cons c).
Proof.
  intros (W & C & K) H. split; [exact W | split; [exact C|]].
  simpl. intros x I. apply in_app_or in I as [I|[<-|[]]]; auto.
Qed.

Lemma lineStep_state (tableName : string)
  (st : JsMap.t Column.t * list Constraint.t) (line : string) :
  SQLInv.state st -> SQLInv.state (SQL.lineStep tableName st line).
Proof.
  destruct st as [cols cons]. intros S. unfold SQL.lineStep.
  destruct (startsWith _ "PRIMARY KEY").
  { destruct (Regex.match_ line SQL.parenthesized); [|assumption].
    apply state_push; [assumption|]. split; [|apply columnList_lower].
    left. now split. }
  destruct (startsWith _ "UNIQUE").
  { destruct (Regex.match_ line SQL.parenthesized); [|assumption].
    apply state_push; [assumption|]. split; [|apply columnList_lower].
    right; left. now split. }
  destruct (_ || _).
  { destruct (Regex.match_ line SQL.foreignKey); [|assumption].
    apply state_push; [assumption|]. split; [|apply columnList_lower].
    right; right. split; [reflexivity|]. discriminate. }
  destruct (_ || _); [assumption|].
  destruct (SQL.columnOfLine _ _) as [col|] eqn:E; [|assumption].
  destruct S as (W & C & K). split; [|split]; simpl.
  - now apply set_wf.
  - intros [k c] I. apply in_set in I as [[-> ->]|I]; [|now apply C].
    now apply (columnOfLine_column _ _ _ E).
  - exact K.
Qed.

Lemma tableOfMatch_table (m : Regex.captures) :
  SQLInv.table (Table.name (SQL.tableOfMatch m), SQL.tableOfMatch m).
Proof.
  unfold SQL.tableOfMatch.
  set (tn := toLowerCase (Regex.group 1 m)).
  set (ls := filter nonEmpty _).
  assert (S : SQLInv.state (fold_left (SQL.lineStep tn) ls ([], []))).
  { apply fold_left_keeps; [intros st x; apply lineStep_state|].
    split; [|split]; simpl; [constructor | intros e [] | intros c []]. }
  destruct (fold_left (SQL.lineStep tn) ls ([], [])) as [cols cons].
  simpl. split; [reflexivity | split; [apply toLowerCase_twice | exact S]].
Qed.

Lemma execLoop_tables (fuel pos : nat) (rest : string) (ts : JsMap.t Table.t) :
  SQLInv.tables ts -> SQLInv.tables (SQL.execLoop fuel pos rest ts).
Proof.
  revert pos rest ts. induction fuel as [|fuel IH]; intros pos rest ts T;
    simpl; [assumption|].
  destruct (Regex.search SQL.createRegex pos rest) as [[[pos' rest'] m]|];
    [|assumption].
  apply IH. destruct T as [W E]. split; [now apply set_wf|].
  intros [k t] I. apply in_set in I as [[-> ->]|I]; [|now apply E].
  apply tableOfMatch_table.
Qed.

Lemma parseSQL_tables (content : string) :
  SQLInv.tables (Schema.tables (SQL.parseSQL content)).
Proof.
  unfold SQL.parseSQL. cbn [Schema.tables]. apply execLoop_tables.
  split; [constructor | intros e []].
Qed.

(** X10.  In the schema parsed from any SQL text, each table is listed once
    under its own name, in lower case, and so is each column of each
    table. *)
Theorem parseSQL_names (content : string) :
  NoDup (JsMap.keys (Schema.tables (SQL.parseSQL content))) /\
  forall n t, In (n, t) (Schema.tables (SQL.parseSQL content)) ->
    Table.name t = n /\ toLowerCase n = n /\
    NoDup (JsMap.keys (Table.columns t)) /\
    forall k c, In (k, c) (Table.columns t) ->
      Column.name c = k /\ toLowerCase k = k.
Proof.
  destruct (parseSQL_tables content) as [W E]. split; [exact W|].
  intros n t I. destruct (E _ I) as (N & L & WC & C & _).
  repeat split; try assumption; destruct (C _ H) as (? & ? & _); assumption.
Qed.

(** X11.  A column that the SQL parser marks as primary key is never
    nullable. *)
Theorem parseSQL_primary_key_not_null (content : string) (n k : string)
  (t : Table.t) (c : Column.t) :
  In (n, t) (Schema.tables (SQL.parseSQL content)) ->
  In (k, c) (Table.columns t) ->
  Column.primaryKey c = true -> Column.nullable c = false.
Proof.
  intros IT IC. destruct (parseSQL_tables content) as [_ E].
  destruct (E _ IT) as (_ & _ & _ & C & _).
  destruct (C _ IC) as (_ & _ & _ & P). exact P.
Qed.

(** X12.  The SQL parser stores every column type in upper case. *)
Theorem parseSQL_type_upper (content : string) (n k : string)
  (t : Table.t) (c : Column.t) :
  In (n, t) (Schema.tables (SQL.parseSQL content)) ->
  In (k, c) (Table.columns t) ->
  toUpperCase (Column.type c) = Column.type c.
Proof.
  intros IT IC. destruct (parseSQL_tables content) as [_ E].
  destruct (E _ IT) as (_ & _ & _ & C & _).
  destruct (C _ IC) as (_ & _ & U & _). exact U.
Qed.

(** X13.  Every constraint the SQL parser returns is a PRIMARY KEY, a UNIQUE
    or a FOREIGN KEY, it has a [references] exactly when it is a
    FOREIGN KEY, and its columns are in lower case. *)
Theorem parseSQL_constraint_kinds (content : string) (n : string)
  (t : Table.t) (c : Constraint.t) :
  In (n, t) (Schema.tables (SQL.parseSQL content)) ->
  In c (Table.constraints t) ->
  (Constraint.type c = "PRIMARY KEY" \/ Constraint.type c = "UNIQUE" \/
   Constraint.type c = "FOREIGN KEY") /\
  (Constraint.references c <> None <-> Constraint.type c = "FOREIGN KEY") /\
  (forall x, In x (Constraint.columns c) -> toLowerCase x = x).
Proof.
  intros IT IC. destruct (parseSQL_tables content) as [_ E].
  destruct (E _ IT) as (_ & _ & _ & _ & K).
  destruct (K _ IC) as [[[T R]|[[T R]|[T R]]] L]; rewrite T;
    (split; [auto|]); (split; [|exact L]);
    split; try (intros; assumption); try reflexivity;
    try (intros N; now elim N); discriminate.
Qed.

Example parseSQL_sample :
  SQL.parseSQL SampleSQL.text = Schema.mk [("users", SampleSQL.users)].
Proof. vm_compute. reflexivity. Qed.

Lemma parseSQL_names_witness :
  Table.name SampleSQL.users = "users" /\ toLowerCase "users" = "users" /\
  NoDup (JsMap.keys (Table.columns SampleSQL.users)) /\
  forall k c, In (k, c) (Table.columns SampleSQL.users) ->
    Column.name c = k /\ toLowerCase k = k.
Proof.
  apply (proj2 (parseSQL_names SampleSQL.text) "users" SampleSQL.users).
  vm_compute. left. reflexivity.
Defined.

Lemma parseSQL_primary_key_not_null_witness :
  Column.nullable (Column.mk "id" "INT PRIMARY KEY" false None true false) = false.
Proof.
  apply (parseSQL_primary_key_not_null SampleSQL.text "users" "id" SampleSQL.users).
  - vm_compute. left. reflexivity.
  - simpl. left. reflexivity.
  - reflexivity.
Defined.

Lemma parseSQL_type_upper_witness :
  toUpperCase "VARCHAR(255)" = "VARCHAR(255)".
Proof.
  apply (parseSQL_type_upper SampleSQL.text "users" "email" SampleSQL.users
           (Column.mk "email" "VARCHAR(255)" true None false false)).
  - vm_compute. left. reflexivity.
  - simpl. right. left. reflexivity.
Defined.

Lemma parseSQL_constraint_kinds_witness :
  ("FOREIGN KEY" = "PRIMARY KEY" \/ "FOREIGN KEY" = "UNIQUE" \/
   "FOREIGN KEY" = "FOREIGN KEY") /\
  (Some "orgs(id)" <> None <-> "FOREIGN KEY" = "FOREIGN KEY") /\
  (forall x, In x ["org"] -> toLowerCase x = x).
Proof.
  apply (parseSQL_constraint_kinds SampleSQL.text "users" SampleSQL.users
           (Constraint.mk "fk_users_org" "FOREIGN KEY" ["org"] (Some "orgs(id)"))).
  - vm_compute. left. reflexivity.
  - simpl. right. left. reflexivity.
Defined.

Lemma diffSchemas_of_wf (S : Schema.t) :
  wfSchema S -> diffSchemas S S = Diff.mk [] [] [].
Proof.
  intros [WT WC].
  pose proof (addedTables_collect S S) as HA.
  pose proof (removedTables_collect S S) as HR.
  pose proof (changedTables_collect S S) as HC.
  rewrite lacking_same in HA, HR.
  destruct (diffSchemas S S) as [a r c]; simpl in *. subst a r. f_equal.
  rewrite HC. apply collect_nil. intros [name t] I.
  unfold changedOfTable; simpl.
  rewrite (get_of_wf _ _ _ WT I), (tableDiff_same name t (WC name t I)).
  reflexivity.
Qed.

(** X14.  Comparing the schema parsed from a SQL text with itself reports
    nothing, whatever the text. *)
Theorem parseSQL_self_diff (content : string) :
  diffSchemas (SQL.parseSQL content) (SQL.parseSQL content) = Diff.mk [] [] [].
Proof.
  apply diffSchemas_of_wf. destruct (parseSQL_tables content) as [W E].
  split; [exact W|]. intros n t I. now destruct (E _ I) as (_ & _ & WC & _).
Qed.

Lemma constraint_noColon (c : Constraint.t) :
  SQLInv.constraint c -> noColon (Constraint.type c) = true.
Proof. intros [[[-> _]|[[-> _]|[-> _]]] _]; reflexivity. Qed.

(** X15.  For two tables parsed from SQL, a constraint of the new table is
    reported added exactly when no constraint of the old table has the same
    type and the same comma-joined columns. *)
Theorem parseSQL_added_constraint (oldText newText : string) (n m name : string)
  (oldTable newTable : Table.t) (c : Constraint.t) :
  In (n, oldTable) (Schema.tables (SQL.parseSQL oldText)) ->
  In (m, newTable) (Schema.tables (SQL.parseSQL newText)) ->
  (In c (TableDiff.addedConstraints (tableDiff name oldTable newTable)) <->
   In c (Table.constraints newTable) /\
   forall c', In c' (Table.constraints oldTable) ->
     ~ (Constraint.type c' = Constraint.type c /\
        join "," (Constraint.columns c') = join "," (Constraint.columns c))).
Proof.
  intros IO IN.
  destruct (parseSQL_tables oldText) as [_ EO].
  destruct (parseSQL_tables newText) as [_ EN].
  destruct (EO _ IO) as (_ & _ & _ & _ & KO).
  destruct (EN _ IN) as (_ & _ & _ & _ & KN). simpl in KO, KN.
  rewrite tableDiff_fields; simpl. rewrite in_collect. unfold unmatched. split.
  - intros (x & I & E). destruct (Set_has _ _) eqn:H; simpl in E; [discriminate|].
    injection E as ->. split; [assumption|]. intros c' I' [T J].
    assert (HT : Set_has (map constraintKey (Table.constraints oldTable))
                         (constraintKey c) = true).
    { apply Set_has_In. rewrite <- (constraintKey_of_pair c' c T J).
      now apply in_map. }
    congruence.
  - intros [I N]. exists c. split; [assumption|].
    destruct (Set_has _ _) eqn:H; [|reflexivity]. exfalso.
    apply Set_has_In in H. apply in_map_iff in H as (c' & K & I').
    apply (N c' I'). apply constraintKey_inj; auto using constraint_noColon.
Qed.

Lemma parseSQL_added_constraint_witness :
  In (Constraint.mk "pk_users" "PRIMARY KEY" ["id"] None)
     (TableDiff.addedConstraints (tableDiff "users" SampleSQL.users SampleSQL.users))
  <->
  In (Constraint.mk "pk_users" "PRIMARY KEY" ["id"] None)
     (Table.constraints SampleSQL.users) /\
  forall c', In c' (Table.constraints SampleSQL.users) ->
    ~ (Constraint.type c' = "PRIMARY KEY" /\
       join "," (Constraint.columns c') = join "," ["id"]).
Proof.
  apply (parseSQL_added_constraint SampleSQL.text SampleSQL.text
           "users" "users" "users" SampleSQL.users SampleSQL.users).
  - vm_compute. left. reflexivity.
  - vm_compute. left. reflexivity.
Defined.

(** ** The matcher consumes text from the front *)

Lemma suffixOf_refl (s : string) : suffixOf s s.
Proof. now exists EmptyString. Qed.

Lemma suffixOf_tail (c : ascii) (s' s : string) :
  suffixOf s' s -> suffixOf s' (String c s).
Proof. intros [p ->]. now exists (String c p). Qed.

Lemma suffixOf_trans (a b c : string) :
  suffixOf a b -> suffixOf b c -> suffixOf a c.
Proof.
  intros [p ->] [q ->]. exists (q ++ p)%string.
  induction q as [|x q IH]; simpl; [reflexivity | now rewrite IH].
Qed.

Lemma occurs_suffix (c : ascii) (s' s : string) :
  suffixOf s' s -> occurs c s = false -> occurs c s' = false.
Proof.
  intros [p ->]. induction p as [|x p IH]; simpl; [auto|].
  intros H. apply orb_false_iff in H as [_ H]. now apply IH.
Qed.

Lemma occurs_append (c : ascii) (a b : string) :
  occurs c (a ++ b)%string = occurs c a || occurs c b.
Proof.
  induction a as [|x a IH]; simpl; [reflexivity|].
  now rewrite IH, orb_assoc.
Qed.

Lemma reaches_here (k : Regex.cont) (pos : nat) (s : string)
  (caps : Regex.captures) (res : Regex.result) :
  k pos s caps = Some res -> reaches k s res.
Proof. intros H. exists pos, s, caps. split; [apply suffixOf_refl | exact H]. Qed.

Lemma reaches_tail (k : Regex.cont) (c : ascii) (s : string) (res : Regex.result) :
  reaches k s res -> reaches k (String c s) res.
Proof.
  intros (pos' & s' & caps' & S & H). exists pos', s', caps'.
  split; [now apply suffixOf_tail | exact H].
Qed.

Lemma reaches_through (k1 k2 : Regex.cont) (s : string) (res : Regex.result) :
  reaches k1 s res ->
  (forall pos' s' caps', k1 pos' s' caps' = Some res -> reaches k2 s' res) ->
  reaches k2 s res.
Proof.
  intros (pos' & s' & caps' & S & H) N.
  destruct (N _ _ _ H) as (pos2 & s2 & caps2 & S2 & H2).
  exists pos2, s2, caps2. split; [now apply (suffixOf_trans _ s') | exact H2].
Qed.

Lemma orElse_some (a : option Regex.result) (b : unit -> option Regex.result)
  (res : Regex.result) :
  Regex.orElse a b = Some res -> a = Some res \/ b tt = Some res.
Proof. destruct a; simpl; auto. Qed.

Lemma one_reaches (p : ascii -> bool) (k : Regex.cont) (pos : nat) (s : string)
  (caps : Regex.captures) (res : Regex.result) :
  Regex.one p k pos s caps = Some res -> reaches k s res.
Proof.
  destruct s as [|c rest]; simpl; [discriminate|].
  destruct (p c); [|discriminate].
  intros H. apply reaches_tail. now apply (reaches_here _ (S pos) _ caps).
Qed.

Lemma greedy_reaches (p : ascii -> bool) (k : Regex.cont) (s : string) :
  forall pos caps res,
    Regex.greedy p k pos s caps = Some res -> reaches k s res.
Proof.
  induction s as [|c rest IH]; intros pos caps res; simpl.
  - apply reaches_here.
  - destruct (p c); [|apply reaches_here].
    intros H. apply orElse_some in H as [H|H].
    + apply reaches_tail. now apply (IH (S pos) caps).
    + now apply (reaches_here _ pos _ caps).
Qed.

Lemma reluctant_reaches (p : ascii -> bool) (k : Regex.cont) (s : string) :
  forall pos caps res,
    Regex.reluctant p k pos s caps = Some res -> reaches k s res.
Proof.
  induction s as [|c rest IH]; intros pos caps res; simpl;
    intros H; apply orElse_some in H as [H|H];
    try (now apply (reaches_here _ pos _ caps)); try discriminate.
  destruct (p c); [|discriminate].
  apply reaches_tail. now apply (IH (S pos) caps).
Qed.

Lemma run_reaches (r : regex) :
  forall k pos s caps res,
    Regex.run r k pos s caps = Some res -> reaches k s res.
Proof.
  induction r as [|p q|r1 IH1 r2 IH2|r IH|i r IH|]; intros k pos s caps res; simpl.
  - apply reaches_here.
  - destruct q.
    + apply one_reaches.
    + intros H. apply orElse_some in H as [H|H];
        [now apply (one_reaches p k pos s caps) | now apply (reaches_here _ pos _ caps)].
    + apply greedy_reaches.
    + intros H. apply one_reaches in H.
      apply (reaches_through _ _ _ _ H). intros pos' s' caps'.
      apply greedy_reaches.
    + apply reluctant_reaches.
  - intros H. apply IH1 in H. apply (reaches_through _ _ _ _ H).
    intros pos' s' caps'. apply IH2.
  - intros H. apply orElse_some in H as [H|H];
      [now apply (IH k pos s caps) | now apply (reaches_here _ pos _ caps)].
  - intros H. apply IH in H. destruct H as (pos' & s' & caps' & S & H).
    exists pos', s', ((i, substring 0 (pos' - pos) s) :: caps'). now split.
  - destruct (Nat.eqb pos 0); [apply reaches_here | discriminate].
Qed.

(** A match of a sequence runs its last expression somewhere in the text. *)
Lemma run_lastOf (r : regex) :
  forall k pos s caps res,
    Regex.run r k pos s caps = Some res ->
    exists pos' s' caps',
      suffixOf s' s /\ Regex.run (lastOf r) k pos' s' caps' = Some res.
Proof.
  induction r as [|p q|r1 _ r2 IH2|r _|i r _|]; intros k pos s caps res H;
    try (exists pos, s, caps; split; [apply suffixOf_refl | exact H]).
  simpl in H. apply run_reaches in H as (pos1 & s1 & caps1 & S1 & H1).
  destruct (IH2 _ _ _ _ _ H1) as (pos2 & s2 & caps2 & S2 & H2).
  exists pos2, s2, caps2. split; [now apply (suffixOf_trans _ s1) | exact H2].
Qed.

Lemma matchAt_suffix (r : regex) (pos : nat) (s : string)
  (pos' : nat) (s' : string) (caps : Regex.captures) :
  Regex.matchAt r pos s = Some (pos', s', caps) -> suffixOf s' s.
Proof.
  intros H. apply run_reaches in H as (p2 & s2 & c2 & S & H).
  now injection H as _ <- _.
Qed.

(** ** Text without a semicolon *)

Lemma createRegex_needs_semicolon (pos : nat) (s : string) :
  occurs ";" s = false -> Regex.matchAt SQL.createRegex pos s = None.
Proof.
  intros N. destruct (Regex.matchAt _ _ _) as [res|] eqn:H; [|reflexivity].
  exfalso. apply run_lastOf in H as (pos' & s' & caps' & S & H).
  apply (occurs_suffix ";" _ _ S) in N.
  change (lastOf SQL.createRegex) with (Regex.chr ";") in H.
  unfold Regex.chr, Regex.run, Regex.one in H.
  destruct s' as [|c rest]; [discriminate|]. simpl in N.
  apply orb_false_iff in N as [N _].
  destruct (Ascii.eqb_spec ";" c) as [<-|_]; discriminate.
Qed.

Lemma search_needs_semicolon (s : string) :
  forall pos, occurs ";" s = false -> Regex.search SQL.createRegex pos s = None.
Proof.
  induction s as [|c rest IH]; intros pos N;
    cbn [Regex.search]; rewrite (createRegex_needs_semicolon pos _ N);
    [reflexivity|].
  apply IH. simpl in N. now apply orb_false_iff in N as [_ N].
Qed.

Lemma replaceFrom_occurs (c : ascii) (r : regex) (by_ : string) (fuel : nat) :
  occurs c by_ = false ->
  forall pos s, occurs c s = false ->
    occurs c (Regex.replaceFrom fuel r by_ pos s) = false.
Proof.
  intros B. induction fuel as [|fuel IH]; intros pos s N; simpl; [assumption|].
  destruct (Regex.matchAt r pos s) as [[[pos' s'] caps]|] eqn:M.
  - pose proof (occurs_suffix c _ _ (matchAt_suffix _ _ _ _ _ _ M) N) as N'.
    destruct (Nat.eqb pos' pos).
    + destruct s as [|x rest]; [assumption|].
      simpl in N. apply orb_false_iff in N as [X N].
      rewrite occurs_append, B. simpl. rewrite X. now apply IH.
    + rewrite occurs_append, B. now apply IH.
  - destruct s as [|x rest]; [reflexivity|].
    simpl in N. apply orb_false_iff in N as [X N].
    simpl. rewrite X. now apply IH.
Qed.

Lemma clean_occurs (content : string) :
  occurs ";" content = false -> occurs ";" (SQL.clean content) = false.
Proof.
  intros N. unfold SQL.clean, Regex.replaceAll.
  repeat (apply replaceFrom_occurs; [reflexivity|]). exact N.
Qed.

(** X16.  A text without a semicolon holds no table: a CREATE TABLE
    statement is read only when a semicolon ends it. *)
Theorem parseSQL_needs_semicolon (content : string) :
  occurs ";" content = false -> SQL.parseSQL content = Schema.mk [].
Proof.
  intros N. unfold SQL.parseSQL. f_equal. cbn [SQL.execLoop].
  now rewrite (search_needs_semicolon _ 0 (clean_occurs _ N)).
Qed.

Lemma parseSQL_needs_semicolon_witness :
  SQL.parseSQL SampleSQL.unfinished = Schema.mk [].
Proof. apply parseSQL_needs_semicolon. reflexivity. Defined.

(** ** The JSON parser: invariants and scalar roots *)

Section JSONMore.

Import JSONSchema.

Variable number : Type.
Variable Number_toString : number -> string.
Variable Number_isZero : number -> bool.

Let parse := parseJSONSchema number Number_toString Number_isZero.

Lemma bind_return {A B : Type} (m : outcome A) (f : A -> outcome B) (b : B) :
bind m f = Return b -> exists a, m = Return a /\ f a = Return b.
Proof. destruct m as [a|e]; simpl; [eauto | discriminate]. Qed.

Lemma foldM_keeps {A S : Type} (Inv : S -> Prop) (step : S -> A -> outcome S)
(l : list A) :
(forall st x st', Inv st -> step st x = Return st' -> Inv st') ->
forall st st', Inv st -> foldM step l st = Return st' -> Inv st'.
Proof.
intros H. induction l as [|x rest IH]; intros st st' I; simpl.
- now intros [= <-].
- intros E. apply bind_return in E as (st1 & E1 & E2). eauto.
Qed.

Lemma columnOf_column (colName : string) (col : value number) (c : Column.t) :
columnOf number Number_toString colName col = Return c ->
JSONInv.column (toLowerCase colName, c).
Proof.
unfold columnOf. intros E.
repeat (apply bind_return in E as (? & _ & E)).
injection E as <-. simpl. repeat split.
- apply toLowerCase_twice.
- apply toUpperCase_twice.
Qed.

Lemma columnStep_columns (cols : JsMap.t Column.t) (entry : string * value number)
(cols' : JsMap.t Column.t) :
JSONInv.columns cols ->
JSONSchema.columnStep number Number_toString cols entry = Return cols' ->
JSONInv.columns cols'.
Proof.
intros [W C] E. unfold JSONSchema.columnStep in E.
apply bind_return in E as (c & E1 & E2). injection E2 as <-.
split; [now apply set_wf|].
intros [k x] I. apply in_set in I as [[-> ->]|I]; [|now apply C].
now apply (columnOf_column _ (snd entry)).
Qed.

Lemma tableStep_tables (ts : JsMap.t (ParsedTable (value number)))
(entry : string * value number) (ts' : JsMap.t (ParsedTable (value number))) :
JSONInv.tables ts ->
JSONSchema.tableStep number Number_toString Number_isZero ts entry = Return ts' ->
JSONInv.tables ts'.
Proof.
intros [W T] E. destruct entry as [tn def]. unfold JSONSchema.tableStep in E.
apply bind_return in E as (cols & _ & E).
apply bind_return in E as (columns & EC & E).
apply bind_return in E as (cons & _ & E).
apply bind_return in E as (constraints & _ & E).
injection E as <-.
assert (IC : JSONInv.columns columns).
{ destruct (_ && _).
  - destruct cols as [cs|].
    + apply bind_return in EC as (es & _ & EC).
      apply (foldM_keeps JSONInv.columns _ es columnStep_columns [] columns);
        [|exact EC].
      split; [constructor | intros e []].
    + injection EC as <-. split; [constructor | intros e []].
  - injection EC as <-. split; [constructor | intros e []]. }
split; [now apply set_wf|].
intros [k t] I. apply in_set in I as [[-> ->]|I]; [|now apply T].
simpl. repeat split; try apply IC. apply toLowerCase_twice.
Qed.

Lemma parse_tables (parsed : option (value number))
(ts : JsMap.t (ParsedTable (value number))) :
parse parsed = Return ts -> JSONInv.tables ts.
Proof.
destruct parsed as [json|]; [|discriminate]. unfold parse; simpl.
unfold schemaOf. intros E.
apply bind_return in E as (t & _ & E).
apply bind_return in E as (es & _ & E).
apply (foldM_keeps JSONInv.tables _ es tableStep_tables [] ts); [|exact E].
split; [constructor | intros e []].
Qed.

(** X17.  In a schema the JSON parser returns, each table is listed once
  under its own name, in lower case; so is each column of each table, and
  every column type is in upper case. *)
Theorem parseJSONSchema_names (parsed : option (value number))
(ts : JsMap.t (ParsedTable (value number))) :
parse parsed = Return ts ->
NoDup (JsMap.keys ts) /\
forall n t, In (n, t) ts ->
  tableName _ t = n /\ toLowerCase n = n /\
  NoDup (JsMap.keys (tableColumns _ t)) /\
  forall k c, In (k, c) (tableColumns _ t) ->
    Column.name c = k /\ toLowerCase k = k /\
    toUpperCase (Column.type c) = Column.type c.
Proof.
intros E. destruct (parse_tables _ _ E) as [W T]. split; [exact W|].
intros n t I. destruct (T _ I) as (N & L & WC & C).
repeat split; try assumption; destruct (C _ H) as (? & ? & ?); assumption.
Qed.

Lemma parseJSONSchema_scalar_root (n : number) (b : bool) :
parse (Some (JNumber n)) = Return [] /\
parse (Some (JBool b)) = Return [] /\
parse (Some (JString "")) = Return [] /\
parse (Some (JArray [])) = Return [].
Proof. repeat split; reflexivity. Qed.

End JSONMore.

Lemma parseJSONSchema_names_witness :
  NoDup (JsMap.keys
           [("users", JSONSchema.mkTable (value := JSONSchema.value unit) "users"
                        [("id", Sample.col "id" "INT" true None)] [])]) /\
  forall n t,
    In (n, t)
       [("users", JSONSchema.mkTable (value := JSONSchema.value unit) "users"
                    [("id", Sample.col "id" "INT" true None)] [])] ->
    JSONSchema.tableName _ t = n /\ toLowerCase n = n /\
    NoDup (JsMap.keys (JSONSchema.tableColumns _ t)) /\
    forall k c, In (k, c) (JSONSchema.tableColumns _ t) ->
      Column.name c = k /\ toLowerCase k = k /\
      toUpperCase (Column.type c) = Column.type c.
Proof.
  apply (parseJSONSchema_names unit (fun _ => "0") (fun _ => true)
           (Some (JSONSchema.JObject
                    [("Users",
                      JSONSchema.JObject
                        [("columns",
                          JSONSchema.JObject
                            [("Id", JSONSchema.JObject
                                      [("type", JSONSchema.JString "int")])])])]))).
  reflexivity.
Defined.

(** ** No table is listed twice *)

Lemma collect_keys_in {A B : Type} (f : A -> option B) (ka : A -> string)
  (kb : B -> string) (l : list A) (n : string) :
  (forall x y, f x = Some y -> kb y = ka x) ->
  In n (map kb (collect f l)) -> In n (map ka l).
Proof.
  intros K I. apply in_map_iff in I as (y & <- & I).
  apply in_collect in I as (x & I & E). rewrite (K _ _ E). now apply in_map.
Qed.

Lemma collect_NoDup {A B : Type} (f : A -> option B) (ka : A -> string)
  (kb : B -> string) (l : list A) :
  (forall x y, f x = Some y -> kb y = ka x) ->
  NoDup (map ka l) -> NoDup (map kb (collect f l)).
Proof.
  intros K. induction l as [|x rest IH]; simpl; intros N; [constructor|].
  inversion N as [|? ? NI N']; subst.
  destruct (f x) as [y|] eqn:E; [|now apply IH].
  simpl. constructor; [|now apply IH].
  rewrite (K _ _ E). intros I. apply NI.
  now apply (collect_keys_in f ka kb rest).
Qed.

Lemma map_id_eq {A : Type} (l : list A) : map (fun x => x) l = l.
Proof. induction l as [|x rest IH]; simpl; [reflexivity | now rewrite IH]. Qed.

(** X18.  When each schema lists each of its tables once, the diff lists
    no table twice: not among the added, not among the removed, not among
    the changed. *)
Theorem diff_lists_distinct (oldSchema newSchema : Schema.t) :
  JsMap.wf (Schema.tables oldSchema) -> JsMap.wf (Schema.tables newSchema) ->
  NoDup (Diff.addedTables (diffSchemas oldSchema newSchema)) /\
  NoDup (Diff.removedTables (diffSchemas oldSchema newSchema)) /\
  NoDup (map TableDiff.name (Diff.changedTables (diffSchemas oldSchema newSchema))).
Proof.
  intros WO WN.
  rewrite addedTables_collect, removedTables_collect, changedTables_collect.
  assert (L : forall other x y, lacking other x = Some y -> (fun s : string => s) y = x).
  { intros other x y. unfold lacking. destruct (negb _); [|discriminate].
    now intros [= ->]. }
  repeat split.
  - rewrite <- (map_id_eq (collect _ _)).
    apply (collect_NoDup _ (fun s => s) (fun s => s)); [apply L|].
    now rewrite map_id_eq.
  - rewrite <- (map_id_eq (collect _ _)).
    apply (collect_NoDup _ (fun s => s) (fun s => s)); [apply L|].
    now rewrite map_id_eq.
  - apply (collect_NoDup _ fst); [|exact WN].
    intros [n t] td. unfold changedOfTable; simpl.
    destruct (JsMap.get _ n) as [o|]; [|discriminate].
    destruct (anyChange _); [|discriminate].
    intros [= <-]. apply tableDiff_name.
Qed.

Lemma diff_lists_distinct_witness :
  NoDup (Diff.addedTables (diffSchemas Sample.schema_v1 Sample.schema_v3)) /\
  NoDup (Diff.removedTables (diffSchemas Sample.schema_v1 Sample.schema_v3)) /\
  NoDup (map TableDiff.name
           (Diff.changedTables (diffSchemas Sample.schema_v1 Sample.schema_v3))).
Proof.
  apply (diff_lists_distinct Sample.schema_v1 Sample.schema_v3);
    unfold JsMap.wf; simpl; repeat constructor; simpl; intuition discriminate.
Defined.


(** ** The reports *)





Section Reports.

Variable basename : string -> string.
Variables warnSign okSign crossSign : string.
Variables crossMark checkBox warnEmoji cycleArrows : string.








End Reports.

(** ** The reports on a sample diff *)




(** ** The command line *)

Lemma startsWith_refl_eqb (x a : string) :
  startsWith x "--" = true -> startsWith a "--" = false -> String.eqb x a = false.
Proof.
  intros X A. destruct (String.eqb_spec x a) as [->|_]; [congruence | reflexivity].
Qed.

Lemma includes_cons (a x : string) (args : list string) :
  CLI.includes (a :: args) x = String.eqb x a || CLI.includes args x.
Proof. reflexivity. Qed.

Lemma anyBreakingTable_filter (ts : list TableDiff.t) :
  anyBreakingTable (filter keepsTable (map breakingPart ts)) = anyBreakingTable ts.
Proof.
  induction ts as [|t rest IH]; [reflexivity|].
  cbn [map filter anyBreakingTable].
  destruct (keepsTable (breakingPart t)) eqn:K.
  - cbn [anyBreakingTable breakingPart TableDiff.removedColumns
         TableDiff.changedColumns].
    now rewrite existsb_filter_self, IH.
  - apply keepsTable_false in K as (R & C & _); simpl in R, C.
    rewrite R, (existsb_filter_nil _ _ C). simpl. exact IH.
Qed.

Section MainFacts.

Variable basename : string -> string.
Variables warnSign okSign crossSign : string.
Variables crossMark checkBox warnEmoji cycleArrows : string.
Variable parseFile : string -> string + Schema.t.

Let main := CLI.main basename warnSign okSign crossSign crossMark checkBox
            warnEmoji cycleArrows parseFile.
Let report := CLI.report basename warnSign okSign crossSign crossMark checkBox
              warnEmoji cycleArrows.

(** X24.  The value given to [--format] is also counted as a file: when
  [--format] and its value come first, the value is read as the old schema
  and the next argument as the new one. *)
Theorem format_value_read_as_file (fmt a : string) (rest : list string) :
noExit (fmt :: a :: rest) = true ->
nonEmpty fmt = true ->
startsWith fmt "--" = false -> startsWith a "--" = false ->
main ("--format" :: fmt :: a :: rest) =
let flags := CLI.mkFlags (CLI.includes rest "--json")
                         (CLI.includes rest "--breaking-only") fmt in
match parseFile fmt with
| inl msg => CLI.Failure (CLI.json flags) msg
| inr oldSchema =>
    match parseFile a with
    | inl msg => CLI.Failure (CLI.json flags) msg
    | inr newSchema => report flags oldSchema newSchema fmt a
    end
end.
Proof.
intros NE F SF SA. unfold main, CLI.main.
unfold noExit in NE. apply negb_true_iff in NE.
rewrite !(includes_cons "--format"). cbn [String.eqb Ascii.eqb Bool.eqb orb].
apply orb_false_iff in NE as [NE V]. apply orb_false_iff in NE as [NE VV].
apply orb_false_iff in NE as [HH H].
rewrite HH, H, VV, V. cbn [orb].
assert (P : CLI.positional ("--format" :: fmt :: a :: rest)
            = fmt :: a :: CLI.positional rest).
{ unfold CLI.positional. cbn [filter].
  replace (startsWith "--format" "--") with true by reflexivity.
  now rewrite SF, SA. }
rewrite P.
assert (G : CLI.flagsOf ("--format" :: fmt :: a :: rest)
            = CLI.mkFlags (CLI.includes rest "--json")
                          (CLI.includes rest "--breaking-only") fmt).
{ unfold CLI.flagsOf. cbn [CLI.indexOf String.eqb Ascii.eqb Bool.eqb
                            Nat.add nth_error]. rewrite F.
  rewrite !(includes_cons "--format"), !(includes_cons fmt), !(includes_cons a).
  rewrite (startsWith_refl_eqb "--json" fmt eq_refl SF),
    (startsWith_refl_eqb "--json" a eq_refl SA),
    (startsWith_refl_eqb "--breaking-only" fmt eq_refl SF),
    (startsWith_refl_eqb "--breaking-only" a eq_refl SA).
  reflexivity. }
rewrite G. reflexivity.
Qed.

(** X25.  With [--breaking-only] and [--json], the report's [breaking] flag
  is that of the whole diff, its removed tables are those of the whole
  diff, and it lists no added table. *)
Theorem breaking_only_json_report (fmt : string) (oldSchema newSchema : Schema.t)
(oldFile newFile : string) :
exists r,
  report (CLI.mkFlags true true fmt) oldSchema newSchema oldFile newFile
    = CLI.PrintJSON r /\
  Report.breaking r = hasBreakingChanges (diffSchemas oldSchema newSchema) /\
  Report.removed r = Diff.removedTables (diffSchemas oldSchema newSchema) /\
  Report.added r = [] /\
  Report.addedTables (Report.summary r) = 0.
Proof.
eexists. split; [reflexivity|]. repeat split.
cbn [formatJSON Report.breaking CLI.breakingOnly].
unfold hasBreakingChanges. cbn [filterBreakingOnly Diff.removedTables
                                 Diff.changedTables].
now rewrite anyBreakingTable_filter.
Qed.

End MainFacts.

Lemma format_value_read_as_file_witness :
  CLI.main (fun s => s) "!" "v" "x" "x" "v" "!" "~"
    (fun _ => inl "ENOENT") ["--format"; "markdown"; "old.sql"; "new.sql"]
  = CLI.Failure false "ENOENT".
Proof.
  apply (format_value_read_as_file (fun s => s) "!" "v" "x" "x" "v" "!" "~"
           (fun _ => inl "ENOENT") "markdown" "old.sql" ["new.sql"]);
    reflexivity.
Defined.

(** ** The JSON parser returns on well-shaped documents *)

Section JSONAccepts.

Import JSONSchema.
Import JSONShape.

Variable number : Type.
Variable Number_toString : number -> string.
Variable Number_isZero : number -> bool.

Let parse := parseJSONSchema number Number_toString Number_isZero.

















End JSONAccepts.

